(** * Page batch processor of price-tracker-webscraping-langgraph

    Shallow embedding of [src/backend/app/mcp_testing.py] (class
    [PlaywrightMcp]: [multi_tab], [single_client], [multiple_clients],
    [_open_page], [_extract_text],
    [_extract_image_bytes], [extract_snapshot], [take_screenshot]) and of
    [src/backend/app/workflows/mcp.py] ([query_into_search_input]),
    together with [src/backend/app/config/env_variables.py].

    The remote Playwright MCP server is an oracle: the response to the
    [k]-th tool call of a session is [srv k] (in the batch, [srv i k] for
    the session of the [i]-th page task).  The asyncio event loop of
    [multiple_clients] is a small-step machine whose scheduler may pick any
    runnable task at every suspension point.  Opening and writing a file
    is an oracle as well ([write_outcome]): it succeeds or raises, possibly
    after part of the bytes are stored.  [import asyncio] is executed only
    when the file runs as a script ([module_mode]). *)

From Stdlib Require Import Ascii String NArith Lia.
From stdpp Require Import base list gmap strings.

Open Scope list_scope.

(* ------------------------------------------------------------------ *)
(** ** Data model *)

Definition bytes := list Byte.byte.

(** [class PageItem(TypedDict)] *)
Record PageItem := mkPageItem { name : string; url : string }.

(** [class PageItemResult(TypedDict)] *)
Record PageItemResult := mkPageItemResult {
  r_name : string; r_url : string; snapshot : string }.

(** Content items of an MCP tool result ([mcp.types]); only
    [TextContent] carries a [text] attribute, only [ImageContent] and
    [AudioContent] a [data] attribute. *)
Inductive content_item :=
| TextContent (text : string)
| ImageContent (data mimeType : string)
| AudioContent (data mimeType : string)
| ResourceLink (uri : string)
| EmbeddedResource (uri : string).

(** The [type] tag of every content item. *)
Definition content_type (c : content_item) : string :=
  match c with
  | TextContent _ => "text"
  | ImageContent _ _ => "image"
  | AudioContent _ _ => "audio"
  | ResourceLink _ => "resource_link"
  | EmbeddedResource _ => "resource"
  end.

(** Attribute access [item.text] and [item.data]. *)
Definition content_text (c : content_item) : option string :=
  match c with TextContent t => Some t | _ => None end.

Definition content_data (c : content_item) : option string :=
  match c with
  | ImageContent d _ | AudioContent d _ => Some d
  | _ => None
  end.

(** [CallToolResult]: the sequence of content items. *)
Record tool_result := mkToolResult { content : list content_item }.

(** Python exceptions that reach the code. *)
Inductive error :=
| ToolError (msg : string)      (** any exception raised by [client.call_tool] *)
| AttributeError (attr : string)
| Base64Error                   (** [binascii.Error] from [b64decode] *)
| ValueError (msg : string)
| NameError (name : string)     (** an unbound global name *)
| ConfigurationError.

Inductive result (A : Type) :=
| Ok (a : A)
| Err (e : error).
Arguments Ok {A} a.
Arguments Err {A} e.

(** Outcome of one remote call. *)
Inductive response :=
| RespOk (r : tool_result)
| RespErr (e : error).

(** The MCP tools called by the repository, with their arguments. *)
Inductive tool_call :=
| BrowserNavigate (url : string)
| BrowserWaitFor (time : nat)
| BrowserTakeScreenshot (fullPage : bool) (type_ : string)
| BrowserSnapshot
| BrowserClick (ref element : string)
| BrowserType (ref element text : string)
| BrowserPressKey (key : string).

(** Observable events: semaphore traffic, client sessions, tool calls,
    file writes and the completion of a task. *)
Inductive event :=
| EvAcquire
| EvOpen
| EvCall (c : tool_call)
| EvWrite (filename : string) (data : bytes)
| EvClose
| EvRelease
| EvFinish (failure : option error).

(* ------------------------------------------------------------------ *)
(** ** [base64.b64decode]

    [base64.b64decode(s)] with the default [validate=False]: a [str]
    argument is first encoded to ASCII, which raises [ValueError] for a
    non-ASCII character (a Rocq [string] is a byte string; a non-ASCII
    character of the Python [str] shows up as a byte of 128 or more), and
    the bytes go to [binascii.a2b_base64(s, strict_mode=False)].  That loop
    reads one character at a time: a character outside the base64
    alphabet is skipped; a data character fills the current quad
    ([quad_pos] 0..3) and emits a byte at positions 1, 2 and 3; a pad
    character ['='] counts only once two data characters of the quad have
    been read, and a pad that completes the quad stops the decoding, the
    rest of the input being ignored.  At the end of the input an
    incomplete quad raises [binascii.Error] (one leftover character, or
    ["Incorrect padding"]). *)

Definition sextet (a : ascii) : option N :=
  let n := N_of_ascii a in
  if (65 <=? n)%N && (n <=? 90)%N then Some (n - 65)%N
  else if (97 <=? n)%N && (n <=? 122)%N then Some (n - 71)%N
  else if (48 <=? n)%N && (n <=? 57)%N then Some (n + 4)%N
  else if (n =? 43)%N then Some 62%N
  else if (n =? 47)%N then Some 63%N
  else None.

(** [*bin_data++ = ...]: the value stored in an [unsigned char]. *)
Definition byte_of_N (n : N) : Byte.byte :=
  match Byte.of_N (n mod 256) with Some b => b | None => Byte.x00 end.

Definition is_pad (a : ascii) : bool := Ascii.eqb a "="%char.

Definition cons_ok (b : Byte.byte) (r : result bytes) : result bytes :=
  match r with Ok bs => Ok (b :: bs) | Err e => Err e end.

(** The loop of [binascii_a2b_base64_impl] with [strict_mode] off, from
    the state [quad_pos], [leftchar], [pads]. *)
Fixpoint a2b_base64 (cs : list ascii) (quad_pos : nat) (leftchar : N) (pads : nat)
  : result bytes :=
  match cs with
  | [] => if Nat.eqb quad_pos 0 then Ok [] else Err Base64Error
  | ch :: rest =>
      if is_pad ch then
        (** [if (quad_pos >= 2 && quad_pos + ++pads >= 4) goto done;] *)
        if Nat.leb 2 quad_pos then
          if Nat.leb 4 (quad_pos + S pads) then Ok []
          else a2b_base64 rest quad_pos leftchar (S pads)
        else a2b_base64 rest quad_pos leftchar pads
      else
        match sextet ch with
        | None => a2b_base64 rest quad_pos leftchar pads
        | Some v =>
            match quad_pos with
            | 0 => a2b_base64 rest 1 v 0
            | 1 => cons_ok (byte_of_N (leftchar * 4 + v / 16))
                           (a2b_base64 rest 2 (v mod 16) 0)
            | 2 => cons_ok (byte_of_N (leftchar * 16 + v / 4))
                           (a2b_base64 rest 3 (v mod 4) 0)
            | _ => cons_ok (byte_of_N (leftchar * 64 + v))
                           (a2b_base64 rest 0 0 0)
            end
        end
  end.

Definition b64decode (s : string) : result bytes :=
  let cs := list_ascii_of_string s in
  if forallb (fun a => (N_of_ascii a <? 128)%N) cs
  then a2b_base64 cs 0 0 0
  else Err (ValueError "string argument should contain only ASCII characters").

(* ------------------------------------------------------------------ *)
(** ** Result extraction *)

(** [_extract_text]:
    [return result.content[0].text if result.content else ""]
    (identical in [mcp_testing.py] and [workflows/mcp.py]). *)
Definition _extract_text (r : tool_result) : result string :=
  match content r with
  | [] => Ok ""
  | c :: _ =>
      match content_text c with
      | Some t => Ok t
      | None => Err (AttributeError "text")
      end
  end.

(** [_extract_image_bytes]: the loop over [result.content] returning the
    decoded [data] of the first item whose [type] is ["image"], or [None]. *)
Fixpoint extract_image_bytes_loop (cs : list content_item) : result (option bytes) :=
  match cs with
  | [] => Ok None
  | c :: cs' =>
      if String.eqb (content_type c) "image" then
        match content_data c with
        | Some d =>
            match b64decode d with
            | Ok b => Ok (Some b)
            | Err e => Err e
            end
        | None => Err (AttributeError "data")
        end
      else extract_image_bytes_loop cs'
  end.

Definition _extract_image_bytes (r : tool_result) : result (option bytes) :=
  extract_image_bytes_loop (content r).

(** Python truthiness of [img] in [if img:] ([None] and [b""] are false). *)
Definition truthy (img : option bytes) : bool :=
  match img with Some (_ :: _) => true | _ => false end.

(** The first content item tagged ["image"]. *)
Definition first_image (cs : list content_item) : option content_item :=
  List.find (fun c => String.eqb (content_type c) "image") cs.

(* ------------------------------------------------------------------ *)
(** ** Single-session operations

    One client session: a state and error monad over the call log, the
    file system and the index of the next tool call. *)

Record sworld := mkSWorld {
  s_log : list event;
  s_fs : gmap string bytes;
  s_next : nat }.

Definition M (A : Type) := sworld -> result A * sworld.

Definition ret {A} (a : A) : M A := fun w => (Ok a, w).

Definition bind {A B} (m : M A) (k : A -> M B) : M B :=
  fun w => match m w with
           | (Ok a, w') => k a w'
           | (Err e, w') => (Err e, w')
           end.

Notation "x <- m ;; k" := (bind m (fun x => k))
  (at level 100, m at next level, right associativity).
Notation "m ;;; k" := (bind m (fun _ => k))
  (at level 100, right associativity).

Definition raise_ {A} (r : result A) : M A := fun w => (r, w).

Definition log_ev (ev : event) (w : sworld) : sworld :=
  mkSWorld (s_log w ++ [ev]) (s_fs w) (s_next w).

(** What the file system does with [with open(filename, "wb") as f:
    f.write(b)]: it succeeds, or it raises [e] ([OSError], or [ValueError]
    for a name holding a NUL character), either in [open] before the file
    exists ([stored = None]) or after [open] created or truncated it,
    leaving its first [n] bytes ([stored = Some n]). *)
Inductive write_outcome :=
| WriteOk
| WriteFails (e : error) (stored : option nat).

(** The events and the exception of that write. *)
Definition write_effect (wr : write_outcome) (filename : string) (b : bytes)
  : list event * option error :=
  match wr with
  | WriteOk => ([EvWrite filename b], None)
  | WriteFails e None => ([], Some e)
  | WriteFails e (Some n) => ([EvWrite filename (take n b)], Some e)
  end.

(** The content a write of [b] leaves in the file, if it reaches it. *)
Definition stored_bytes (wr : write_outcome) (b : bytes) : option bytes :=
  match wr with
  | WriteOk => Some b
  | WriteFails _ None => None
  | WriteFails _ (Some n) => Some (take n b)
  end.

Definition apply_writes (fs : gmap string bytes) (evs : list event) : gmap string bytes :=
  foldl (fun fs ev => match ev with EvWrite f b => <[f := b]> fs | _ => fs end) fs evs.

(** [with open(filename, "wb") as f: f.write(b)] *)
Definition write_file (wr : write_outcome) (filename : string) (b : bytes) : M unit :=
  fun w =>
    let '(evs, exc) := write_effect wr filename b in
    let w' := mkSWorld (s_log w ++ evs) (apply_writes (s_fs w) evs) (s_next w) in
    match exc with None => (Ok tt, w') | Some e => (Err e, w') end.

Section Session.
Variable srv : nat -> response.
Variable wr : write_outcome.

(** [await client.call_tool(name, args)] *)
Definition call_tool (c : tool_call) : M tool_result :=
  fun w =>
    let w' := mkSWorld (s_log w ++ [EvCall c]) (s_fs w) (S (s_next w)) in
    match srv (s_next w) with
    | RespOk r => (Ok r, w')
    | RespErr e => (Err e, w')
    end.

(** [async with await self._client() as client: body]: the session is
    closed on every exit path and the exception, if any, re-raised. *)
Definition with_client {A} (body : M A) : M A :=
  fun w => let (res, w1) := body (log_ev EvOpen w) in (res, log_ev EvClose w1).

(** [_open_page] *)
Definition _open_page (page_url : string) : M unit :=
  call_tool (BrowserNavigate page_url) ;;;
  call_tool (BrowserWaitFor 5) ;;;
  ret tt.

(** [extract_snapshot] *)
Definition extract_snapshot (page_url : string) : M string :=
  with_client (
    _open_page page_url ;;;
    result <- call_tool BrowserSnapshot ;;
    raise_ (_extract_text result)).

(** [take_screenshot] *)
Definition take_screenshot (page_url filename : string) (full_page : bool) : M unit :=
  with_client (
    _open_page page_url ;;;
    result <- call_tool (BrowserTakeScreenshot full_page "png") ;;
    img <- raise_ (_extract_image_bytes result) ;;
    if truthy img then
      match img with Some b => write_file wr filename b | None => ret tt end
    else ret tt).

(** [query_into_search_input] ([workflows/mcp.py]) *)
Definition query_into_search_input (page_url input_element_ref query_text : string)
  : M string :=
  with_client (
    _open_page page_url ;;;
    call_tool (BrowserClick input_element_ref "search input") ;;;
    call_tool (BrowserType input_element_ref "search input" query_text) ;;;
    call_tool (BrowserPressKey "Enter") ;;;
    call_tool (BrowserWaitFor 5) ;;;
    result <- call_tool BrowserSnapshot ;;
    raise_ (_extract_text result)).

End Session.

Definition sinit (fs : gmap string bytes) : sworld := mkSWorld [] fs 0.

(* ------------------------------------------------------------------ *)
(** ** Configuration and construction *)

(** The process environment seen by [load_dotenv(); os.getenv]. *)
Definition environ := list (string * string).

Definition os_getenv (env : environ) (key : string) : option string :=
  match List.find (fun p => String.eqb (fst p) key) env with
  | Some p => Some (snd p)
  | None => None
  end.

(** [PLAYWRIGHT_MCP_URL = os.getenv("PLAYWRIGHT_MCP_URL")] ([None] when unset). *)
Definition PLAYWRIGHT_MCP_URL (env : environ) : option string :=
  os_getenv env "PLAYWRIGHT_MCP_URL".

Record StreamableHttpTransport := mkTransport { t_url : option string }.

Record PlaywrightMcp := mkPlaywrightMcp { transport : StreamableHttpTransport }.

(** [PlaywrightMcp.__init__]: [self.transport = StreamableHttpTransport(mcp_server_url)].
    The transport constructor belongs to the fastmcp library and is a
    parameter. *)
Definition __init__ (new_transport : option string -> result StreamableHttpTransport)
  (mcp_server_url : option string) : result PlaywrightMcp :=
  match new_transport mcp_server_url with
  | Ok t => Ok (mkPlaywrightMcp t)
  | Err e => Err e
  end.

(** A transport constructor that stores its URL without inspecting it. *)
Definition store_url_transport (u : option string) : result StreamableHttpTransport :=
  Ok (mkTransport u).

(** A transport constructor that rejects anything but an http(s) URL with
    a [ValueError]. *)
Definition checked_url_transport (u : option string) : result StreamableHttpTransport :=
  match u with
  | Some s => if String.prefix "http" s then Ok (mkTransport u)
              else Err (ValueError "Invalid HTTP/S URL provided for Streamable HTTP.")
  | None => Err (ValueError "Invalid HTTP/S URL provided for Streamable HTTP.")
  end.

(* ------------------------------------------------------------------ *)
(** ** [multiple_clients]: the bounded fan-out

    Each [worker(item)] is an asyncio task; its local state records where
    the coroutine is suspended.  [o] is the task's outcome: its
    [PageItemResult] or the exception it raises. *)

Inductive tstate :=
| TWaiting                               (** blocked in [async with semaphore] *)
| TAcquired                              (** permit held, opening the client *)
| TInSession (k : nat)                   (** session open, [k] tool calls done *)
| TLeaving (o : result PageItemResult)   (** leaving [async with client] *)
| TClosed (o : result PageItemResult)    (** session closed, permit still held *)
| TDone (o : result PageItemResult).     (** permit released, task finished *)

Definition failure_of {A} (o : result A) : option error :=
  match o with Ok _ => None | Err e => Some e end.

(** The [k]-th tool call of [process_page_item(item)]: [_open_page]
    (navigate, wait), the screenshot, the snapshot. *)
Definition page_call (it : PageItem) (k : nat) : option tool_call :=
  match k with
  | 0 => Some (BrowserNavigate (url it))
  | 1 => Some (BrowserWaitFor 5)
  | 2 => Some (BrowserTakeScreenshot true "png")
  | 3 => Some BrowserSnapshot
  | _ => None
  end.

(** One tool call of [process_page_item] and the synchronous code after it
    up to the next suspension point. *)
Definition process_page_item_step (srv_i : nat -> response) (wr_i : write_outcome)
  (it : PageItem) (k : nat) : option (tstate * list event) :=
  match page_call it k with
  | None => None
  | Some c =>
    Some match srv_i k with
    | RespErr e => (TLeaving (Err e), [EvCall c])
    | RespOk result =>
        match k with
        | 2 =>
            match _extract_image_bytes result with
            | Err e => (TLeaving (Err e), [EvCall c])
            | Ok img =>
                match img with
                | Some b =>
                    if truthy img
                    then
                      let '(ws, exc) := write_effect wr_i (String.append (name it) ".png") b in
                      match exc with
                      | None => (TInSession 3, EvCall c :: ws)
                      | Some e => (TLeaving (Err e), EvCall c :: ws)
                      end
                    else (TInSession 3, [EvCall c])
                | None => (TInSession 3, [EvCall c])
                end
            end
        | 3 =>
            match _extract_text result with
            | Ok t => (TLeaving (Ok (mkPageItemResult (name it) (url it) t)), [EvCall c])
            | Err e => (TLeaving (Err e), [EvCall c])
            end
        | _ => (TInSession (S k), [EvCall c])
        end
    end
  end.

(** One atomic step of [worker(item)] for task [i]. *)
Definition worker_step (srv : nat -> nat -> response) (wr : nat -> write_outcome)
  (i : nat) (it : PageItem)
  (ts : tstate) : option (tstate * list event) :=
  match ts with
  | TWaiting => Some (TAcquired, [EvAcquire])
  | TAcquired => Some (TInSession 0, [EvOpen])
  | TInSession k => process_page_item_step (srv i) (wr i) it k
  | TLeaving o => Some (TClosed o, [EvClose])
  | TClosed o => Some (TDone o, [EvRelease; EvFinish (failure_of o)])
  | TDone _ => None
  end.

(** [semaphore.acquire()] suspends the task while the value is 0. *)
Definition blocked (ts : tstate) (sem : nat) : bool :=
  match ts with TWaiting => Nat.eqb sem 0 | _ => false end.

(** Semaphore value after a step taken from [ts]. *)
Definition sem_after (ts : tstate) (sem : nat) : nat :=
  match ts with
  | TWaiting => pred sem
  | TClosed _ => S sem
  | _ => sem
  end.

Fixpoint first_failure (evs : list event) : option error :=
  match evs with
  | [] => None
  | EvFinish (Some e) :: _ => Some e
  | _ :: evs' => first_failure evs'
  end.

(** Event loop state: the semaphore, the tasks of [asyncio.gather] in
    argument order, the file system, the event log tagged by task, and the
    exception stored in gather's outer future (the first failing child). *)
Record bworld := mkBWorld {
  b_sem : nat;
  b_tasks : list tstate;
  b_fs : gmap string bytes;
  b_log : list (nat * event);
  b_exc : option error }.

Section Batch.
Variable srv : nat -> nat -> response.
Variable wr : nat -> write_outcome.      (** the file write of task [i] *)
Variable items : list PageItem.

(** The scheduler resumes task [i]; [None] when it is blocked or finished. *)
Definition step (w : bworld) (i : nat) : option bworld :=
  match items !! i, b_tasks w !! i with
  | Some it, Some ts =>
      if blocked ts (b_sem w) then None else
      match worker_step srv wr i it ts with
      | Some (ts', evs) =>
          Some (mkBWorld (sem_after ts (b_sem w)) (<[i := ts']> (b_tasks w))
                  (apply_writes (b_fs w) evs) (b_log w ++ map (pair i) evs)
                  (match b_exc w with
                   | Some e => Some e
                   | None => first_failure evs
                   end))
      | None => None
      end
  | _, _ => None
  end.

Fixpoint run (w : bworld) (sched : list nat) : option bworld :=
  match sched with
  | [] => Some w
  | i :: sched' => match step w i with Some w' => run w' sched' | None => None end
  end.

End Batch.

(** [semaphore = asyncio.Semaphore(5)] and
    [asyncio.gather] over [worker(item)] for every item, in order: the
    event loop once the body has evaluated these, which needs the global
    name [asyncio] (see [multiple_clients_start]). *)
Definition multiple_clients (items : list PageItem) (fs : gmap string bytes) : bworld :=
  mkBWorld 5 (replicate (length items) TWaiting) fs [] None.

(** How [mcp_testing.py] is loaded.  Its [import asyncio] sits under
    [if __name__ == "__main__":], so the global name [asyncio] is bound
    only when the file runs as a script; imported as a module it is not. *)
Inductive module_mode := RunAsMain | Imported.

Definition asyncio_bound (mode : module_mode) : bool :=
  match mode with RunAsMain => true | Imported => false end.

(** Awaiting [multiple_clients(items)]: the first statement that names
    [asyncio] is [semaphore = asyncio.Semaphore(5)]; with the name unbound
    it raises [NameError] before any task or session exists. *)
Definition multiple_clients_start (mode : module_mode) (items : list PageItem)
  (fs : gmap string bytes) : result bworld :=
  if asyncio_bound mode then Ok (multiple_clients items fs)
  else Err (NameError "asyncio").

Fixpoint collect_results (tasks : list tstate) : option (list PageItemResult) :=
  match tasks with
  | [] => Some []
  | TDone (Ok r) :: ts =>
      match collect_results ts with Some rs => Some (r :: rs) | None => None end
  | _ :: _ => None
  end.

(** What [await asyncio.gather(...)] has produced so far: the first
    exception of a child, or the results in argument order once every
    child is done; [None] while pending. *)
Definition gather_result (w : bworld) : option (result (list PageItemResult)) :=
  match b_exc w with
  | Some e => Some (Err e)
  | None => match collect_results (b_tasks w) with
            | Some rs => Some (Ok rs)
            | None => None
            end
  end.

(** Events of task [i], in order. *)
Fixpoint task_log (i : nat) (log : list (nat * event)) : list event :=
  match log with
  | [] => []
  | (j, ev) :: log' => if Nat.eqb j i then ev :: task_log i log' else task_log i log'
  end.

Fixpoint count_ev (p : event -> bool) (evs : list event) : nat :=
  match evs with
  | [] => 0
  | ev :: evs' => (if p ev then 1 else 0) + count_ev p evs'
  end.

Definition is_acquire (e : event) : bool := match e with EvAcquire => true | _ => false end.
Definition is_open (e : event) : bool := match e with EvOpen => true | _ => false end.
Definition is_close (e : event) : bool := match e with EvClose => true | _ => false end.
Definition is_release (e : event) : bool := match e with EvRelease => true | _ => false end.
Definition is_call (e : event) : bool := match e with EvCall _ => true | _ => false end.

(** The counter of a test double: sessions opened minus sessions closed. *)
Definition open_sessions (log : list (nat * event)) : nat :=
  count_ev is_open (map snd log) - count_ev is_close (map snd log).

(** Number of tool calls task [i] has issued. *)
Definition calls_issued (i : nat) (log : list (nat * event)) : nat :=
  count_ev is_call (task_log i log).

(* ------------------------------------------------------------------ *)
(** ** The call sequence of [query_into_search_input] *)

(** The tool calls the search operation is meant to issue, in order. *)
Definition search_calls (page_url input_element_ref query_text : string) : list tool_call :=
  [BrowserNavigate page_url; BrowserWaitFor 5;
   BrowserClick input_element_ref "search input";
   BrowserType input_element_ref "search input" query_text;
   BrowserPressKey "Enter"; BrowserWaitFor 5; BrowserSnapshot].

(* ------------------------------------------------------------------ *)
(** ** Invariant of the event loop *)

Fixpoint tcount (p : tstate -> bool) (l : list tstate) : nat :=
  match l with
  | [] => 0
  | t :: l' => (if p t then 1 else 0) + tcount p l'
  end.

(** Tasks holding a semaphore permit. *)
Definition holds (ts : tstate) : bool :=
  match ts with TWaiting | TDone _ => false | _ => true end.

(** Tasks whose client session is open. *)
Definition in_session (ts : tstate) : bool :=
  match ts with TInSession _ | TLeaving _ => true | _ => false end.

Definition outcome_of (ts : tstate) : option (result PageItemResult) :=
  match ts with TLeaving o | TClosed o | TDone o => Some o | _ => None end.

Definition acq_of (ts : tstate) : nat := match ts with TWaiting => 0 | _ => 1 end.
Definition open_of (ts : tstate) : nat :=
  match ts with TWaiting | TAcquired => 0 | _ => 1 end.
Definition close_of (ts : tstate) : nat :=
  match ts with TClosed _ | TDone _ => 1 | _ => 0 end.
Definition rel_of (ts : tstate) : nat := match ts with TDone _ => 1 | _ => 0 end.

(** Tool calls issued by a task that has not left its session yet. *)
Definition calls_so_far (ts : tstate) (n : nat) : Prop :=
  match ts with
  | TWaiting | TAcquired => n = 0
  | TInSession k => n = k
  | _ => True
  end.

(** What the events [tl] of task [i] (processing [it]) say about its state [ts]. *)
Definition task_inv (srv : nat -> nat -> response) (i : nat) (it : PageItem)
  (ts : tstate) (tl : list event) : Prop :=
  count_ev is_acquire tl = acq_of ts /\
  count_ev is_open tl = open_of ts /\
  count_ev is_close tl = close_of ts /\
  count_ev is_release tl = rel_of ts /\
  calls_so_far ts (count_ev is_call tl) /\
  (forall j e, j < count_ev is_call tl -> srv i j = RespErr e -> outcome_of ts = Some (Err e)) /\
  (forall r, outcome_of ts = Some (Ok r) ->
     r_name r = name it /\ r_url r = url it /\
     exists res, srv i 3 = RespOk res /\ _extract_text res = Ok (snapshot r)) /\
  (forall x, In (EvFinish x) tl <-> exists o, ts = TDone o /\ x = failure_of o).

Definition Inv (srv : nat -> nat -> response) (items : list PageItem) (w : bworld) : Prop :=
  length (b_tasks w) = length items /\
  b_sem w + tcount holds (b_tasks w) = 5 /\
  count_ev is_open (map snd (b_log w))
    = count_ev is_close (map snd (b_log w)) + tcount in_session (b_tasks w) /\
  b_exc w = first_failure (map snd (b_log w)) /\
  (forall i it ts, items !! i = Some it -> b_tasks w !! i = Some ts ->
     task_inv srv i it ts (task_log i (b_log w))).

(* ------------------------------------------------------------------ *)
(** ** Progress measure, call trace and files of the batch *)

(** Steps task [worker(item)] still has to take from a state: acquire,
    open, four tool calls, close, release. *)
Definition rank (ts : tstate) : nat :=
  match ts with
  | TWaiting => 8
  | TAcquired => 7
  | TInSession k => 6 - k
  | TLeaving _ => 2
  | TClosed _ => 1
  | TDone _ => 0
  end.

Fixpoint total_rank (l : list tstate) : nat :=
  match l with
  | [] => 0
  | t :: l' => rank t + total_rank l'
  end.

(** A suspended [process_page_item] has made at most its four calls. *)
Definition sane (ts : tstate) : Prop :=
  match ts with TInSession k => k <= 3 | _ => True end.

(** The tool calls of [process_page_item(item)] in program order. *)
Definition page_calls (it : PageItem) : list tool_call :=
  [BrowserNavigate (url it); BrowserWaitFor 5; BrowserTakeScreenshot true "png"; BrowserSnapshot].

(** The tool calls among a sequence of events. *)
Fixpoint calls_of (evs : list event) : list tool_call :=
  match evs with
  | [] => []
  | EvCall c :: evs' => c :: calls_of evs'
  | _ :: evs' => calls_of evs'
  end.

(** The tool calls of [extract_snapshot] and of [take_screenshot], in
    program order. *)
Definition snapshot_calls (page_url : string) : list tool_call :=
  [BrowserNavigate page_url; BrowserWaitFor 5; BrowserSnapshot].

Definition screenshot_calls (page_url : string) (full_page : bool) : list tool_call :=
  [BrowserNavigate page_url; BrowserWaitFor 5; BrowserTakeScreenshot full_page "png"].

(* ------------------------------------------------------------------ *)
(** ** One shared session with browser tabs: [multi_tab] and [single_client]

    Both methods drive the tool [browser_tabs] and print what they get.
    Their session is a separate world: its events and exceptions extend
    those of the page tasks with the tab calls, the [list_tools] request,
    the [print] calls and Python's [IndexError]. *)

(** An element of [await client.list_tools()]; [print(tool.model_dump())]
    prints the whole tool. *)
Record mcp_tool := mkTool { tool_name : string; tool_description : string }.

Inductive tab_call :=
| TabsNew (index : nat)       (** [browser_tabs {"action": "new", "index": index}] *)
| TabsList                    (** [browser_tabs {"action": "list"}] *)
| TabsSelect (index : nat)    (** [browser_tabs {"action": "select", "index": index}] *)
| PageTool (c : tool_call).   (** one of the page tools of [_open_page] and the snapshot *)

Inductive tab_event :=
| TOpen
| TListTools
| TCall (c : tab_call)
| TPrintTool (t : mcp_tool)       (** [print(tool.model_dump())] *)
| TPrintResult (r : tool_result)  (** [print(result)] *)
| TPrint (s : string)             (** [print(s)] of a string *)
| TClose.

Inductive texc :=
| Exc (e : error)
| IndexError.                     (** [result.content[0]] of an empty list *)

Inductive tresult (A : Type) :=
| TOk (a : A)
| TErr (e : texc).
Arguments TOk {A} a.
Arguments TErr {A} e.

Record tworld := mkTWorld { t_log : list tab_event; t_next : nat }.

Definition TM (A : Type) := tworld -> tresult A * tworld.

Definition tret {A} (a : A) : TM A := fun w => (TOk a, w).

Definition tbind {A B} (m : TM A) (k : A -> TM B) : TM B :=
  fun w => match m w with
           | (TOk a, w') => k a w'
           | (TErr e, w') => (TErr e, w')
           end.

Definition tlog (ev : tab_event) (w : tworld) : tworld :=
  mkTWorld (t_log w ++ [ev]) (t_next w).

Definition tprint (ev : tab_event) : TM unit := fun w => (TOk tt, tlog ev w).

Definition traise {A} (r : tresult A) : TM A := fun w => (r, w).

(** [result.content[0].text], without the guard of [_extract_text]. *)
Definition first_text (r : tool_result) : tresult string :=
  match content r with
  | [] => TErr IndexError
  | c :: _ =>
      match content_text c with
      | Some t => TOk t
      | None => TErr (Exc (AttributeError "text"))
      end
  end.

(** The string ["\n"]. *)
Definition newline : string := String (ascii_of_nat 10) EmptyString.

Definition amazon_url : string := "https://www.amazon.com.br/".

Section TabSession.
Variable srv : nat -> response.
Variable tools : result (list mcp_tool).

Local Notation "x <- m ;; k" := (tbind m (fun x => k))
  (at level 100, m at next level, right associativity).
Local Notation "m ;;; k" := (tbind m (fun _ => k))
  (at level 100, right associativity).

Definition tcall (c : tab_call) : TM tool_result :=
  fun w =>
    let w' := mkTWorld (t_log w ++ [TCall c]) (S (t_next w)) in
    match srv (t_next w) with
    | RespOk r => (TOk r, w')
    | RespErr e => (TErr (Exc e), w')
    end.

(** [await client.list_tools()] *)
Definition list_tools : TM (list mcp_tool) :=
  fun w => (match tools with Ok l => TOk l | Err e => TErr (Exc e) end, tlog TListTools w).

Definition with_tab_client {A} (body : TM A) : TM A :=
  fun w => let (res, w1) := body (tlog TOpen w) in (res, tlog TClose w1).

(** [_open_page] in the shared session. *)
Definition t_open_page (page_url : string) : TM unit :=
  tcall (PageTool (BrowserNavigate page_url)) ;;;
  tcall (PageTool (BrowserWaitFor 5)) ;;;
  tret tt.

(** [for tool in tools_list: if tool.name != "browser_tabs": continue;
    print(tool.model_dump())] *)
Fixpoint print_tabs_tools (tools_list : list mcp_tool) : TM unit :=
  match tools_list with
  | [] => tret tt
  | t :: ts =>
      if negb (String.eqb (tool_name t) "browser_tabs") then print_tabs_tools ts
      else tprint (TPrintTool t) ;;; print_tabs_tools ts
  end.

(** [multi_tab] *)
Definition multi_tab : TM unit :=
  with_tab_client (
    tools_list <- list_tools ;;
    print_tabs_tools tools_list ;;;
    tcall (TabsNew 333) ;;;
    tcall (TabsNew 666) ;;;
    tcall (TabsNew 999) ;;;
    result <- tcall TabsList ;;
    tprint (TPrint newline) ;;;
    tprint (TPrintResult result) ;;;
    tprint (TPrint newline) ;;;
    t <- traise (first_text result) ;;
    tprint (TPrint t) ;;;
    tcall (TabsSelect 2) ;;;
    t_open_page amazon_url ;;;
    result <- tcall TabsList ;;
    t <- traise (first_text result) ;;
    tprint (TPrint t)).

End TabSession.

Definition tinit : tworld := mkTWorld [] 0.

(** The tool calls of [multi_tab], in program order. *)
Definition multi_tab_calls : list tab_call :=
  [TabsNew 333; TabsNew 666; TabsNew 999; TabsList; TabsSelect 2;
   PageTool (BrowserNavigate amazon_url); PageTool (BrowserWaitFor 5); TabsList].

(** The tab calls among a sequence of events. *)
Fixpoint tcalls_of (evs : list tab_event) : list tab_call :=
  match evs with
  | [] => []
  | TCall c :: evs' => c :: tcalls_of evs'
  | _ :: evs' => tcalls_of evs'
  end.

(** [single_client]: one session; the loop creating one tab per item, then
    one [asyncio.create_task(process_page_item(idx, item))] per item, all
    using the same client, and [asyncio.gather] over them. *)
Inductive stask :=
| SRun (k : nat)                       (** [k] tool calls done *)
| SDone (o : result PageItemResult).   (** returned or raised *)

Inductive sphase :=
| SPStart                              (** before [async with] *)
| SPTabs (j : nat)                     (** tabs [0 .. j-1] created *)
| SPGather                             (** awaiting [asyncio.gather] over the tasks *)
| SPEnd (o : result (list PageItemResult)).  (** session closed; returned or raised *)

Record cworld := mkCWorld {
  c_phase : sphase;
  c_tasks : list stask;
  c_log : list (option nat * tab_event);   (** [None]: the method body, [Some i]: task [i] *)
  c_next : nat;
  c_exc : option error }.

(** The [k]-th tool call of [process_page_item(tab_index, item)]. *)
Definition sc_task_call (tab_index : nat) (it : PageItem) (k : nat) : option tab_call :=
  match k with
  | 0 => Some (TabsSelect tab_index)
  | 1 => Some (PageTool (BrowserNavigate (url it)))
  | 2 => Some (PageTool (BrowserWaitFor 5))
  | 3 => Some (PageTool BrowserSnapshot)
  | _ => None
  end.

Fixpoint collect_sresults (l : list stask) : option (list PageItemResult) :=
  match l with
  | [] => Some []
  | SDone (Ok r) :: ts =>
      match collect_sresults ts with Some rs => Some (r :: rs) | None => None end
  | _ :: _ => None
  end.

Section SingleClient.
Variable srv : nat -> response.
Variable mode : module_mode.
Variable items : list PageItem.

(** One step of task [i] (processing [it]) suspended after [k] calls. *)
Definition sc_task_step (w : cworld) (i : nat) (it : PageItem) (k : nat) : option cworld :=
  match sc_task_call i it k with
  | None => None
  | Some c =>
      let ts' := match srv (c_next w) with
                 | RespErr e => SDone (Err e)
                 | RespOk r =>
                     if Nat.eqb k 3 then
                       match _extract_text r with
                       | Ok t => SDone (Ok (mkPageItemResult (name it) (url it) t))
                       | Err e => SDone (Err e)
                       end
                     else SRun (S k)
                 end in
      Some (mkCWorld SPGather (<[i := ts']> (c_tasks w))
              (c_log w ++ [(Some i, TCall c)]) (S (c_next w))
              (match c_exc w with
               | Some e => Some e
               | None => match ts' with SDone (Err e) => Some e | _ => None end
               end))
  end.

(** The scheduler resumes the method body ([None]) or task [i]. *)
Definition sc_step (w : cworld) (who : option nat) : option cworld :=
  match who, c_phase w with
  | None, SPStart =>
      Some (mkCWorld (SPTabs 0) (c_tasks w) (c_log w ++ [(None, TOpen)]) (c_next w) (c_exc w))
  | None, SPTabs j =>
      if Nat.ltb j (length items) then
        let log' := c_log w ++ [(None, TCall (TabsNew j))] in
        match srv (c_next w) with
        | RespOk _ => Some (mkCWorld (SPTabs (S j)) (c_tasks w) log' (S (c_next w)) (c_exc w))
        | RespErr e =>
            Some (mkCWorld (SPEnd (Err e)) (c_tasks w) (log' ++ [(None, TClose)])
                   (S (c_next w)) (c_exc w))
        end
      else if asyncio_bound mode
      then Some (mkCWorld SPGather (replicate (length items) (SRun 0)) (c_log w)
                   (c_next w) (c_exc w))
      else
        (** [asyncio.create_task] (or, for no item, [asyncio.gather])
            raises [NameError]; the session is closed. *)
        Some (mkCWorld (SPEnd (Err (NameError "asyncio"))) (c_tasks w)
                (c_log w ++ [(None, TClose)]) (c_next w) (c_exc w))
  | None, SPGather =>
      match c_exc w with
      | Some e => Some (mkCWorld (SPEnd (Err e)) (c_tasks w) (c_log w ++ [(None, TClose)])
                          (c_next w) (c_exc w))
      | None =>
          match collect_sresults (c_tasks w) with
          | Some rs => Some (mkCWorld (SPEnd (Ok rs)) (c_tasks w) (c_log w ++ [(None, TClose)])
                               (c_next w) (c_exc w))
          | None => None
          end
      end
  | Some i, SPGather =>
      match items !! i, c_tasks w !! i with
      | Some it, Some (SRun k) => sc_task_step w i it k
      | _, _ => None
      end
  | _, _ => None
  end.

Fixpoint sc_run (w : cworld) (sched : list (option nat)) : option cworld :=
  match sched with
  | [] => Some w
  | who :: sched' => match sc_step w who with Some w' => sc_run w' sched' | None => None end
  end.

End SingleClient.

Definition single_client_init : cworld := mkCWorld SPStart [] [] 0 None.

(** The session log of [single_client] once the tabs [0 .. n-1] exist. *)
Definition tabs_prefix (n : nat) : list (option nat * tab_event) :=
  (None, TOpen) :: map (fun j => (None, TCall (TabsNew j))) (seq 0 n).

(** What a [single_client] world keeps about its results: once the tasks
    exist there is one per item, and a task that returned did so with the
    name and url of its own item; a returned list is aligned with [items]. *)
Definition sc_aligned (items : list PageItem) (rs : list PageItemResult) : Prop :=
  length rs = length items /\
  forall i it r, items !! i = Some it -> rs !! i = Some r -> r_name r = name it /\ r_url r = url it.

Definition SInv (items : list PageItem) (w : cworld) : Prop :=
  match c_phase w with
  | SPStart | SPTabs _ | SPEnd (Err _) => True
  | SPGather =>
      length (c_tasks w) = length items /\
      forall i it r, items !! i = Some it -> c_tasks w !! i = Some (SDone (Ok r)) ->
        r_name r = name it /\ r_url r = url it
  | SPEnd (Ok rs) => sc_aligned items rs
  end.

(* ------------------------------------------------------------------ *)
(** ** Concrete inputs *)

(** Every file write succeeds. *)
Definition no_write_failure (i : nat) : write_outcome := WriteOk.

Definition demo_items : list PageItem :=
  [mkPageItem "A" "http://x"; mkPageItem "B" "http://y"].

(** Every call succeeds; the screenshot carries an image, the snapshot a
    text item per page. *)
Definition demo_srv_ok (i k : nat) : response :=
  if Nat.eqb k 2 then RespOk (mkToolResult [TextContent "shot"; ImageContent "aGk=" "image/png"])
  else if Nat.eqb k 3 then RespOk (mkToolResult [TextContent (if Nat.eqb i 0 then "snapA" else "snapB")])
  else RespOk (mkToolResult []).

(** The navigation of task 0 fails. *)
Definition demo_srv_fail (i k : nat) : response :=
  if Nat.eqb i 0 && Nat.eqb k 0 then RespErr (ToolError "net") else demo_srv_ok i k.

Definition demo_sched_ok : list nat := [0;1;0;1;0;1;0;1;1;0;1;0;1;0;1;0].
Definition demo_sched_fail : list nat := [0;1;0;1;0;1;0;1;0;1;1;1;1].

Definition demo_world (srv : nat -> nat -> response) (sched : list nat) : bworld :=
  match run srv no_write_failure demo_items (multiple_clients demo_items ∅) sched with
  | Some w => w
  | None => multiple_clients demo_items ∅
  end.

Definition demo_results : list PageItemResult :=
  [mkPageItemResult "A" "http://x" "snapA"; mkPageItemResult "B" "http://y" "snapB"].

(** A single page named "report" whose task is about to take its screenshot. *)
Definition report_items : list PageItem := [mkPageItem "report" "http://r"].
Definition report_world : bworld := mkBWorld 4 [TInSession 2] ∅ [(0, EvAcquire); (0, EvOpen)] None.
Definition report_srv (i k : nat) : response :=
  if Nat.eqb k 2 then RespOk (mkToolResult [ImageContent "aGk=" "image/png"])
  else RespOk (mkToolResult []).

(* ================================================================== *)
(** * Properties *)

(** ** Bookkeeping lemmas *)

Lemma count_ev_app p l1 l2 : count_ev p (l1 ++ l2) = count_ev p l1 + count_ev p l2.
Proof. induction l1 as [|x l1 IH]; simpl; [done|]. rewrite IH. lia. Qed.

Lemma task_log_app i l1 l2 : task_log i (l1 ++ l2) = task_log i l1 ++ task_log i l2.
Proof.
  induction l1 as [|[j ev] l1 IH]; simpl; [done|].
  destruct (Nat.eqb j i); simpl; by rewrite IH.
Qed.

Lemma task_log_tag i j evs :
  task_log i (map (pair j) evs) = if Nat.eqb j i then evs else [].
Proof.
  induction evs as [|ev evs IH]; simpl; [by destruct (Nat.eqb j i)|].
  rewrite IH. by destruct (Nat.eqb j i).
Qed.

Lemma first_failure_app l1 l2 :
  first_failure (l1 ++ l2) =
  match first_failure l1 with Some e => Some e | None => first_failure l2 end.
Proof.
  induction l1 as [|ev l1 IH]; simpl; [done|].
  destruct ev as [| | | | | |[e|]]; auto.
Qed.

Lemma first_failure_in l e : first_failure l = Some e -> In (EvFinish (Some e)) l.
Proof.
  induction l as [|ev l IH]; simpl; [discriminate|].
  destruct ev as [| | | | | |[e'|]]; intros H; try (right; by apply IH).
  left. congruence.
Qed.

Lemma task_log_in j ev log : In (j, ev) log -> In ev (task_log j log).
Proof.
  induction log as [|[k ev'] log IH]; simpl; [done|].
  intros [H|H].
  - inversion H; subst. rewrite Nat.eqb_refl. by left.
  - destruct (Nat.eqb k j); [right|]; auto.
Qed.

Lemma tcount_insert p (l : list tstate) i a b :
  l !! i = Some a ->
  tcount p (<[i := b]> l) + (if p a then 1 else 0) = tcount p l + (if p b then 1 else 0).
Proof.
  revert i. induction l as [|x l IH]; intros i H; [done|].
  destruct i as [|i]; simpl in *.
  - inversion H; subst. lia.
  - specialize (IH i H). lia.
Qed.

Lemma lookup_replicate_eq {A} n (x y : A) i : replicate n x !! i = Some y -> y = x.
Proof.
  revert i. induction n as [|n IH]; intros i H; [done|].
  destruct i; simpl in H; [congruence|eauto].
Qed.

(** ** The steps of one worker *)

Lemma worker_step_shape srv wr i it ts ts' evs :
  worker_step srv wr i it ts = Some (ts', evs) ->
  (ts = TWaiting /\ ts' = TAcquired /\ evs = [EvAcquire]) \/
  (ts = TAcquired /\ ts' = TInSession 0 /\ evs = [EvOpen]) \/
  (exists k c r ws, ts = TInSession k /\ k < 3 /\ page_call it k = Some c /\
     srv i k = RespOk r /\ ts' = TInSession (S k) /\ evs = EvCall c :: ws /\
     (ws = [] \/ exists f b, ws = [EvWrite f b])) \/
  (exists k c o ws, ts = TInSession k /\ page_call it k = Some c /\ ts' = TLeaving o /\
     evs = EvCall c :: ws /\ (ws = [] \/ exists f b, ws = [EvWrite f b]) /\
     (forall e, srv i k = RespErr e -> o = Err e) /\
     (forall r, o = Ok r -> r_name r = name it /\ r_url r = url it /\
        exists res, srv i 3 = RespOk res /\ _extract_text res = Ok (snapshot r))) \/
  (exists o, ts = TLeaving o /\ ts' = TClosed o /\ evs = [EvClose]) \/
  (exists o, ts = TClosed o /\ ts' = TDone o /\ evs = [EvRelease; EvFinish (failure_of o)]).
Proof.
  intros H.
  destruct ts as [| |k|o|o|o]; simpl in H; try discriminate.
  - left. inversion H; auto.
  - right; left. inversion H; auto.
  - unfold process_page_item_step in H.
    destruct (page_call it k) as [c|] eqn:Hc; [|discriminate].
    destruct (srv i k) as [r|e] eqn:Hs.
    + destruct k as [|[|[|[|k]]]]; try discriminate.
      * right; right; left. exists 0, c, r, []. inversion H; subst.
        repeat split; auto; lia.
      * right; right; left. exists 1, c, r, []. inversion H; subst.
        repeat split; auto; lia.
      * destruct (_extract_image_bytes r) as [[b|]|e] eqn:Hi.
        -- destruct (truthy (Some b)).
           ++ destruct (wr i) as [|e [n|]]; simpl in H; inversion H; subst.
              ** right; right; left. eexists 2, c, r, _. repeat split; eauto.
              ** right; right; right; left. eexists 2, c, (Err e), _.
                 repeat split; eauto; intros; congruence.
              ** right; right; right; left. exists 2, c, (Err e), [].
                 repeat split; auto; intros; congruence.
           ++ right; right; left. inversion H; subst.
              exists 2, c, r, []. repeat split; auto.
        -- right; right; left. exists 2, c, r, []. inversion H; subst.
           repeat split; auto.
        -- right; right; right; left. exists 2, c, (Err e), []. inversion H; subst.
           repeat split; auto; intros; congruence.
      * destruct (_extract_text r) as [t|e] eqn:Ht.
        -- right; right; right; left.
           exists 3, c, (Ok (mkPageItemResult (name it) (url it) t)), [].
           inversion H; subst. repeat split; auto; try (intros; congruence).
           all: match goal with Hr : Ok _ = Ok _ |- _ => inversion Hr; subst; simpl; eauto end.
        -- right; right; right; left. exists 3, c, (Err e), []. inversion H; subst.
           repeat split; auto; intros; congruence.
    + right; right; right; left. exists k, c, (Err e), []. inversion H; subst.
      repeat split; auto; intros; congruence.
  - right; right; right; right; left. inversion H; subst. eauto.
  - right; right; right; right; right. inversion H; subst. eauto.
Qed.

Lemma count_ev_writes p ws :
  (ws = [] \/ exists f b, ws = [EvWrite f b]) ->
  (forall f b, p (EvWrite f b) = false) -> count_ev p ws = 0.
Proof. intros [->|(f & b & ->)] Hp; simpl; try done. by rewrite Hp. Qed.

Lemma no_finish_in_writes x ws :
  (ws = [] \/ exists f b, ws = [EvWrite f b]) -> ~ In (EvFinish x) ws.
Proof. intros [->|(f & b & ->)]; simpl; intuition discriminate. Qed.

Ltac finish_absent Hfin :=
  intros x; rewrite in_app_iff; split;
  [ intros [H|H];
    [ apply Hfin in H; destruct H as (? & ? & _); discriminate
    | simpl in H; intuition discriminate ]
  | intros (? & ? & _); discriminate ].

Lemma task_inv_step srv wr i it ts tl ts' evs :
  task_inv srv i it ts tl -> worker_step srv wr i it ts = Some (ts', evs) ->
  task_inv srv i it ts' (tl ++ evs).
Proof.
  intros (Ha & Ho & Hc & Hr & Hk & Hf & Hres & Hfin) Hstep.
  unfold task_inv. rewrite !count_ev_app.
  destruct (worker_step_shape _ _ _ _ _ _ _ Hstep) as
    [(-> & -> & ->)|[(-> & -> & ->)|[(k & c & r & ws & -> & Hk3 & Hc' & Hs & -> & -> & Hws)
    |[(k & c & o & ws & -> & Hc' & -> & -> & Hws & Herr & Hok)|[(o & -> & -> & ->)|(o & -> & -> & ->)]]]]];
    simpl in *.
  - split_and!; try lia.
    all: match goal with
         | |- forall (j : nat) (e : error), _ =>
             intros j e Hj He; specialize (Hf j e ltac:(lia) He); discriminate
         | |- forall r : PageItemResult, _ => intros r' Hr'; discriminate
         | |- forall x : option error, _ => finish_absent Hfin
         end.
  - split_and!; try lia.
    all: match goal with
         | |- forall (j : nat) (e : error), _ => intros j e Hj He; lia
         | |- forall r : PageItemResult, _ => intros r' Hr'; discriminate
         | |- forall x : option error, _ => finish_absent Hfin
         end.
  - rewrite !(count_ev_writes _ ws Hws) by done.
    split_and!; try lia.
    all: match goal with
         | |- forall (j : nat) (e : error), _ =>
             intros j e Hj He;
             destruct (decide (j = k)) as [->|Hne]; [congruence|];
             specialize (Hf j e ltac:(lia) He); discriminate
         | |- forall r : PageItemResult, _ => intros r' Hr'; discriminate
         | |- forall x : option error, _ =>
             intros x; rewrite in_app_iff; split;
             [ intros [H|[H|H]];
               [ apply Hfin in H; destruct H as (? & ? & _); discriminate
               | discriminate
               | by apply no_finish_in_writes in H ]
             | intros (? & ? & _); discriminate ]
         end.
  - rewrite !(count_ev_writes _ ws Hws) by done.
    split_and!; try lia.
    all: match goal with
         | |- forall (j : nat) (e : error), _ =>
             intros j e Hj He;
             destruct (decide (j = k)) as [->|Hne];
             [ by rewrite (Herr e He)
             | specialize (Hf j e ltac:(lia) He); discriminate ]
         | |- forall r : PageItemResult, _ =>
             intros r' Hr'; inversion Hr'; subst; by apply Hok
         | |- forall x : option error, _ =>
             intros x; rewrite in_app_iff; split;
             [ intros [H|[H|H]];
               [ apply Hfin in H; destruct H as (? & ? & _); discriminate
               | discriminate
               | by apply no_finish_in_writes in H ]
             | intros (? & ? & _); discriminate ]
         end.
  - split_and!; try lia.
    all: match goal with
         | |- forall (j : nat) (e : error), _ =>
             intros j e Hj He; exact (Hf j e ltac:(lia) He)
         | |- forall r : PageItemResult, _ => intros r' Hr'; by apply Hres
         | |- forall x : option error, _ => finish_absent Hfin
         end.
  - split_and!; try lia.
    all: match goal with
         | |- forall (j : nat) (e : error), _ =>
             intros j e Hj He; exact (Hf j e ltac:(lia) He)
         | |- forall r : PageItemResult, _ => intros r' Hr'; by apply Hres
         | |- forall x : option error, _ =>
             intros x; rewrite in_app_iff; split;
             [ intros [H|[H|[H|H]]];
               [ apply Hfin in H; destruct H as (? & ? & _); discriminate
               | discriminate
               | inversion H; subst; eauto
               | done ]
             | intros (o' & Ho' & ->); inversion Ho'; subst; right; simpl; auto ]
         end.
Qed.

(** ** The invariant holds along every run *)

Lemma tcount_replicate p n t : p t = false -> tcount p (replicate n t) = 0.
Proof. intros Hp. induction n as [|n IH]; simpl; [done|]. by rewrite Hp, IH. Qed.

Lemma Inv_init srv items fs : Inv srv items (multiple_clients items fs).
Proof.
  unfold Inv, multiple_clients; simpl. split_and!.
  - apply length_replicate.
  - by rewrite tcount_replicate.
  - by rewrite tcount_replicate.
  - done.
  - intros i it ts _ Hts. apply lookup_replicate_eq in Hts as ->.
    unfold task_inv; simpl. split_and!; try done.
    all: match goal with
         | |- forall (j : nat) (e : error), _ => intros j e Hj; lia
         | |- forall r : PageItemResult, _ => intros r Hr; discriminate
         | |- forall x : option error, _ =>
             intros x; split; [done|]; intros (? & ? & _); discriminate
         end.
Qed.

Lemma sem_step srv wr i it ts sem ts' evs :
  worker_step srv wr i it ts = Some (ts', evs) -> blocked ts sem = false ->
  sem_after ts sem + (if holds ts' then 1 else 0) = sem + (if holds ts then 1 else 0).
Proof.
  intros Hs Hb.
  destruct (worker_step_shape _ _ _ _ _ _ _ Hs) as
    [(-> & -> & ->)|[(-> & -> & ->)|[(k & c & r & ws & -> & _ & _ & _ & -> & _)
    |[(k & c & o & ws & -> & _ & -> & _)|[(o & -> & -> & ->)|(o & -> & -> & ->)]]]]];
    simpl in *; try lia.
  apply Nat.eqb_neq in Hb. lia.
Qed.

Lemma session_step srv wr i it ts ts' evs :
  worker_step srv wr i it ts = Some (ts', evs) ->
  count_ev is_open evs + (if in_session ts then 1 else 0)
  = count_ev is_close evs + (if in_session ts' then 1 else 0).
Proof.
  intros Hs.
  destruct (worker_step_shape _ _ _ _ _ _ _ Hs) as
    [(-> & -> & ->)|[(-> & -> & ->)|[(k & c & r & ws & -> & _ & _ & _ & -> & -> & Hws)
    |[(k & c & o & ws' & -> & _ & -> & -> & Hws' & _)|[(o & -> & -> & ->)|(o & -> & -> & ->)]]]]];
    simpl; try lia.
  - rewrite !(count_ev_writes _ ws Hws) by done. lia.
  - rewrite !(count_ev_writes _ ws' Hws') by done. lia.
Qed.

Lemma map_snd_tag {A B} (a : A) (l : list B) : map snd (map (pair a) l) = l.
Proof. induction l as [|x l IH]; simpl; [done|]. by rewrite IH. Qed.

Lemma step_Inv srv wr items w i w' :
  Inv srv items w -> step srv wr items w i = Some w' -> Inv srv items w'.
Proof.
  intros (Hlen & Hsem & Hopen & Hexc & Htasks) Hstep.
  unfold step in Hstep.
  destruct (items !! i) as [it|] eqn:Hit; [|discriminate].
  destruct (b_tasks w !! i) as [ts|] eqn:Hts; [|discriminate].
  destruct (blocked ts (b_sem w)) eqn:Hb; [discriminate|].
  destruct (worker_step srv wr i it ts) as [[ts' evs]|] eqn:Hws; [|discriminate].
  injection Hstep as <-.
  unfold Inv; simpl. split_and!.
  - by rewrite length_insert.
  - pose proof (tcount_insert holds _ _ _ ts' Hts) as H1.
    pose proof (sem_step _ _ _ _ _ (b_sem w) _ _ Hws Hb) as H2. lia.
  - rewrite map_app, map_snd_tag, !count_ev_app.
    pose proof (tcount_insert in_session _ _ _ ts' Hts) as H1.
    pose proof (session_step _ _ _ _ _ _ _ Hws) as H2. lia.
  - rewrite map_app, map_snd_tag, first_failure_app, Hexc. done.
  - intros j it' ts'' Hit' Hts''.
    rewrite task_log_app, task_log_tag.
    destruct (decide (i = j)) as [->|Hne].
    + rewrite Nat.eqb_refl.
      rewrite list_lookup_insert_eq in Hts'' by (eapply lookup_lt_Some; eauto).
      injection Hts'' as <-. rewrite Hit in Hit'. injection Hit' as <-.
      eapply task_inv_step; eauto.
    + apply Nat.eqb_neq in Hne as Hne'. rewrite Hne', app_nil_r.
      rewrite list_lookup_insert_ne in Hts'' by done. eauto.
Qed.

Lemma run_Inv srv wr items sched w w' :
  Inv srv items w -> run srv wr items w sched = Some w' -> Inv srv items w'.
Proof.
  revert w. induction sched as [|i sched IH]; intros w Hinv Hrun; simpl in Hrun.
  - by injection Hrun as <-.
  - destruct (step srv wr items w i) as [w1|] eqn:Hs; [|discriminate].
    eapply IH; [eapply step_Inv|]; eauto.
Qed.

Lemma reachable_Inv srv wr items fs sched w :
  run srv wr items (multiple_clients items fs) sched = Some w -> Inv srv items w.
Proof. intros H. eapply run_Inv; [apply Inv_init|exact H]. Qed.

(** ** Consequences of the invariant *)

Lemma collect_results_spec (l : list tstate) rs :
  collect_results l = Some rs ->
  length rs = length l /\ forall i r, rs !! i = Some r -> l !! i = Some (TDone (Ok r)).
Proof.
  revert rs. induction l as [|t l IH]; intros rs H; simpl in H.
  - injection H as <-. split; [done|]. intros i r Hr. done.
  - destruct t as [| | | | |[r0|e]]; try discriminate.
    destruct (collect_results l) as [rs'|] eqn:Hc; [|discriminate].
    injection H as <-. destruct (IH rs' eq_refl) as [Hlen Hl].
    split; [simpl; lia|]. intros [|i] r Hr; simpl in Hr |- *.
    + by injection Hr as ->.
    + by apply Hl.
Qed.

Lemma gather_ok_results srv wr items fs sched w rs :
  run srv wr items (multiple_clients items fs) sched = Some w ->
  gather_result w = Some (Ok rs) ->
  length rs = length items /\
  forall i it r, items !! i = Some it -> rs !! i = Some r ->
    r_name r = name it /\ r_url r = url it /\
    exists res, srv i 3 = RespOk res /\ _extract_text res = Ok (snapshot r).
Proof.
  intros Hrun Hg.
  destruct (reachable_Inv _ _ _ _ _ _ Hrun) as (Hlen & _ & _ & _ & Htasks).
  unfold gather_result in Hg.
  destruct (b_exc w); [discriminate|].
  destruct (collect_results (b_tasks w)) as [rs'|] eqn:Hc; [|discriminate].
  injection Hg as ->. destruct (collect_results_spec _ _ Hc) as [Hl Hat].
  split; [lia|].
  intros i it r Hit Hr.
  destruct (Htasks i it _ Hit (Hat i r Hr)) as (_ & _ & _ & _ & _ & _ & Hres & _).
  by apply Hres.
Qed.

Lemma tcount_mono p q (l : list tstate) :
  (forall t, p t = true -> q t = true) -> tcount p l <= tcount q l.
Proof.
  intros Hpq. induction l as [|t l IH]; simpl; [lia|].
  destruct (p t) eqn:Hp; [rewrite (Hpq t Hp)|destruct (q t)]; lia.
Qed.

Lemma task_at srv items w i :
  Inv srv items w -> i < length items ->
  exists it ts, items !! i = Some it /\ b_tasks w !! i = Some ts /\
    task_inv srv i it ts (task_log i (b_log w)).
Proof.
  intros (Hlen & _ & _ & _ & Htasks) Hi.
  destruct (lookup_lt_is_Some_2 items i Hi) as [it Hit].
  destruct (lookup_lt_is_Some_2 (b_tasks w) i ltac:(lia)) as [ts Hts].
  exists it, ts. eauto.
Qed.

Lemma first_failure_some l e : In (EvFinish (Some e)) l -> exists e0, first_failure l = Some e0.
Proof.
  induction l as [|ev l IH]; simpl; [done|].
  intros [Hev|H].
  - subst ev. eauto.
  - destruct ev as [| | | | | |[e'|]]; eauto.
Qed.

Lemma task_log_sub i ev log : In ev (task_log i log) -> In ev (map snd log).
Proof.
  induction log as [|[j ev'] log IH]; simpl; [done|].
  destruct (Nat.eqb j i); simpl; intuition.
Qed.

Lemma extract_image_none cs :
  first_image cs = None -> extract_image_bytes_loop cs = Ok None.
Proof.
  unfold first_image. induction cs as [|c cs IH]; simpl; [done|].
  destruct (String.eqb (content_type c) "image"); [discriminate|]. exact IH.
Qed.

Lemma extract_image_first cs d m :
  first_image cs = Some (ImageContent d m) ->
  extract_image_bytes_loop cs =
  match b64decode d with Ok b => Ok (Some b) | Err e => Err e end.
Proof.
  unfold first_image. induction cs as [|c cs IH]; simpl; [discriminate|].
  destruct (String.eqb (content_type c) "image"); [|exact IH].
  intros H. injection H as ->. reflexivity.
Qed.

(* ------------------------------------------------------------------ *)
(** ** Claims *)

(** C10 (failing input): when the first content item is an image, there
    is no text field at index 0: [_extract_text] raises [AttributeError]
    where its docstring promises the text or an empty string. *)
Lemma extract_text_image_first_counterexample :
  _extract_text (mkToolResult [ImageContent "aGk=" "image/png"; TextContent "t"])
    = Err (AttributeError "text") /\
  ~ exists t, _extract_text (mkToolResult [ImageContent "aGk=" "image/png"; TextContent "t"])
                = Ok t.
Proof. split; [reflexivity|]. intros (t & Ht). discriminate. Qed.

(** C10: for a non-empty content sequence, [_extract_text]
    depends only on the item at index 0, whatever the further items are;
    it returns that item's text when it is a text item and raises
    [AttributeError] when it is of any other type. *)
Theorem extract_text_first_item (c : content_item) (cs : list content_item) :
  _extract_text (mkToolResult (c :: cs)) = _extract_text (mkToolResult [c]) /\
  (forall t, c = TextContent t -> _extract_text (mkToolResult (c :: cs)) = Ok t) /\
  (content_type c <> "text" ->
     _extract_text (mkToolResult (c :: cs)) = Err (AttributeError "text")).
Proof.
  split_and!; [reflexivity| intros t ->; reflexivity|].
  destruct c; simpl; [|reflexivity..]. intros H. by destruct H.
Qed.

(** C5: a snapshot call whose result has an empty content sequence yields
    the empty string and no exception, both in [extract_snapshot] and in
    the batch ([PageItemResult.snapshot]). *)
Theorem empty_snapshot_is_empty_string :
  (forall (srv : nat -> response) u fs r0 r1,
     srv 0 = RespOk r0 -> srv 1 = RespOk r1 -> srv 2 = RespOk (mkToolResult []) ->
     fst (extract_snapshot srv u (sinit fs)) = Ok "") /\
  (forall srv wr i it,
     srv i 3 = RespOk (mkToolResult []) ->
     worker_step srv wr i it (TInSession 3)
       = Some (TLeaving (Ok (mkPageItemResult (name it) (url it) "")), [EvCall BrowserSnapshot])) /\
  (forall srv wr items fs sched w rs i r,
     run srv wr items (multiple_clients items fs) sched = Some w ->
     gather_result w = Some (Ok rs) -> rs !! i = Some r ->
     srv i 3 = RespOk (mkToolResult []) -> snapshot r = "").
Proof.
  split_and!.
  - intros srv u fs r0 r1 H0 H1 H2.
    unfold extract_snapshot, with_client, _open_page, bind, call_tool, ret, raise_, log_ev.
    simpl. rewrite H0; simpl. rewrite H1; simpl. rewrite H2; simpl. reflexivity.
  - intros srv wr i it H. simpl. unfold process_page_item_step. simpl. by rewrite H.
  - intros srv wr items fs sched w rs i r Hrun Hg Hr Hs.
    destruct (gather_ok_results _ _ _ _ _ _ _ Hrun Hg) as [Hlen Hal].
    destruct (lookup_lt_is_Some_2 items i) as [it Hit].
    { rewrite <- Hlen. eapply lookup_lt_Some; eauto. }
    destruct (Hal i it r Hit Hr) as (_ & _ & res & Hres & Ht).
    rewrite Hs in Hres. injection Hres as <-. unfold _extract_text in Ht. simpl in Ht. congruence.
Qed.

(** C6: a screenshot result without an image item writes no file and
    raises nothing, in [take_screenshot] and in the batch step. *)
Theorem screenshot_without_image_writes_nothing :
  (forall (srv : nat -> response) wr u fn fp fs r0 r1 r,
     srv 0 = RespOk r0 -> srv 1 = RespOk r1 -> srv 2 = RespOk r ->
     first_image (content r) = None ->
     take_screenshot srv wr u fn fp (sinit fs)
       = (Ok tt, mkSWorld [EvOpen; EvCall (BrowserNavigate u); EvCall (BrowserWaitFor 5);
                           EvCall (BrowserTakeScreenshot fp "png"); EvClose] fs 3)) /\
  (forall srv wr items w w' i it r,
     items !! i = Some it -> b_tasks w !! i = Some (TInSession 2) ->
     srv i 2 = RespOk r -> first_image (content r) = None ->
     step srv wr items w i = Some w' ->
     b_fs w' = b_fs w /\ b_tasks w' !! i = Some (TInSession 3) /\
     b_log w' = b_log w ++ [(i, EvCall (BrowserTakeScreenshot true "png"))]).
Proof.
  split.
  - intros srv wr u fn fp fs r0 r1 r H0 H1 H2 Hn.
    unfold take_screenshot, with_client, _open_page, bind, call_tool, ret, raise_, log_ev.
    simpl. rewrite H0; simpl. rewrite H1; simpl. rewrite H2; simpl. unfold _extract_image_bytes.
    rewrite (extract_image_none _ Hn). reflexivity.
  - intros srv wr items w w' i it r Hit Hts Hs Hn Hstep.
    unfold step in Hstep. rewrite Hit, Hts in Hstep. simpl in Hstep.
    unfold process_page_item_step in Hstep. simpl in Hstep.
    rewrite Hs in Hstep. unfold _extract_image_bytes in Hstep.
    rewrite (extract_image_none _ Hn) in Hstep.
    injection Hstep as <-. simpl. split_and!; [done| |done].
    apply list_lookup_insert_eq. eapply lookup_lt_Some; eauto.
Qed.

(** C7 (counterexample): a screenshot result whose only image item has
    empty data, or data of non-alphabet characters only such as
    ["!!!!"], decodes to [b""]; [if img:] is then false and the task for
    [name = "report"] writes no ["report.png"]. *)
Lemma batch_screenshot_empty_image_counterexample :
  first_image [ImageContent "" "image/png"] = Some (ImageContent "" "image/png") /\
  b64decode "" = Ok [] /\
  worker_step (fun _ k => if Nat.eqb k 2
                          then RespOk (mkToolResult [ImageContent "" "image/png"])
                          else RespOk (mkToolResult []))
              no_write_failure 0 (mkPageItem "report" "http://x") (TInSession 2)
    = Some (TInSession 3, [EvCall (BrowserTakeScreenshot true "png")]) /\
  b64decode "!!!!" = Ok [] /\
  worker_step (fun _ k => if Nat.eqb k 2
                          then RespOk (mkToolResult [ImageContent "!!!!" "image/png"])
                          else RespOk (mkToolResult []))
              no_write_failure 0 (mkPageItem "report" "http://x") (TInSession 2)
    = Some (TInSession 3, [EvCall (BrowserTakeScreenshot true "png")]).
Proof. split_and!; reflexivity. Qed.

(** C7 (amended): when the screenshot result of a batch task has an
    image item, the data of the first image item goes through
    [base64.b64decode].  Non-empty decoded bytes are written to
    [name ++ ".png"]: the file then holds exactly them, unless [open] or
    [write] raises, in which case the task raises with that exception
    (the file unchanged, or truncated to the bytes already stored).
    Empty decoded bytes write nothing; a [b64decode] error makes the task
    raise before any write. *)
Theorem batch_screenshot_file_written srv wr items w w' i it r d m :
  items !! i = Some it -> b_tasks w !! i = Some (TInSession 2) ->
  srv i 2 = RespOk r -> first_image (content r) = Some (ImageContent d m) ->
  step srv wr items w i = Some w' ->
  let f := String.append (name it) ".png" in
  let call := (i, EvCall (BrowserTakeScreenshot true "png")) in
  match b64decode d with
  | Ok (b :: bs) =>
      match wr i with
      | WriteOk =>
          b_fs w' = <[f := b :: bs]> (b_fs w) /\
          b_log w' = b_log w ++ [call; (i, EvWrite f (b :: bs))] /\
          b_tasks w' !! i = Some (TInSession 3)
      | WriteFails e None =>
          b_fs w' = b_fs w /\ b_log w' = b_log w ++ [call] /\
          b_tasks w' !! i = Some (TLeaving (Err e))
      | WriteFails e (Some n) =>
          b_fs w' = <[f := take n (b :: bs)]> (b_fs w) /\
          b_log w' = b_log w ++ [call; (i, EvWrite f (take n (b :: bs)))] /\
          b_tasks w' !! i = Some (TLeaving (Err e))
      end
  | Ok [] =>
      b_fs w' = b_fs w /\ b_log w' = b_log w ++ [call] /\
      b_tasks w' !! i = Some (TInSession 3)
  | Err e =>
      b_fs w' = b_fs w /\ b_log w' = b_log w ++ [call] /\
      b_tasks w' !! i = Some (TLeaving (Err e))
  end.
Proof.
  intros Hit Hts Hs Hfirst Hstep f call.
  assert (Hi : i < length (b_tasks w)) by (eapply lookup_lt_Some; eauto).
  unfold step in Hstep. rewrite Hit, Hts in Hstep. simpl in Hstep.
  unfold process_page_item_step in Hstep. simpl in Hstep.
  rewrite Hs in Hstep. unfold _extract_image_bytes in Hstep.
  rewrite (extract_image_first _ _ _ Hfirst) in Hstep.
  destruct (b64decode d) as [[|b bs]|e]; simpl in Hstep;
    [| destruct (wr i) as [|e [n|]]; simpl in Hstep |];
    injection Hstep as <-; simpl; split_and!; try done;
    apply list_lookup_insert_eq; done.
Qed.

(** C4 (counterexample): with the variable unset, [PLAYWRIGHT_MCP_URL] is
    [None] and [__init__] forwards it unchecked; no [ConfigurationError]
    is raised, whether the transport constructor stores the value or
    rejects it with its own [ValueError]. *)
Lemma init_missing_url_counterexample :
  PLAYWRIGHT_MCP_URL [] = None /\
  __init__ store_url_transport (PLAYWRIGHT_MCP_URL [])
    = Ok (mkPlaywrightMcp (mkTransport None)) /\
  __init__ checked_url_transport (PLAYWRIGHT_MCP_URL [])
    = Err (ValueError "Invalid HTTP/S URL provided for Streamable HTTP.") /\
  __init__ store_url_transport (PLAYWRIGHT_MCP_URL []) <> Err ConfigurationError.
Proof. split_and!; try reflexivity. discriminate. Qed.

(** C4 (amended): when the variable is absent [__init__] receives [None],
    performs no check of its own and makes no remote call; its outcome is
    exactly that of the transport constructor on [None], so it never
    raises [ConfigurationError] unless that constructor does. *)
Theorem init_missing_url_no_configuration_error new_transport (env : environ) :
  os_getenv env "PLAYWRIGHT_MCP_URL" = None ->
  (forall u, new_transport u <> Err ConfigurationError) ->
  PLAYWRIGHT_MCP_URL env = None /\
  (forall e, __init__ new_transport (PLAYWRIGHT_MCP_URL env) = Err e <->
             new_transport None = Err e) /\
  __init__ new_transport (PLAYWRIGHT_MCP_URL env) <> Err ConfigurationError.
Proof.
  intros Henv Hnt. unfold PLAYWRIGHT_MCP_URL. rewrite Henv.
  unfold __init__. split_and!; [done| |].
  - intros e. destruct (new_transport None); split; congruence.
  - pose proof (Hnt None). destruct (new_transport None); congruence.
Qed.

(** C8 (counterexample): imported as a module, [mcp_testing.py] has no
    global [asyncio]; [multiple_clients([])] then raises [NameError] at
    [asyncio.Semaphore(5)] instead of returning [[]]. *)
Lemma multiple_clients_empty_imported_counterexample :
  multiple_clients_start Imported [] ∅ = Err (NameError "asyncio").
Proof. reflexivity. Qed.

(** C8: [multiple_clients([])] makes no tool call in either mode.  Run as
    a script, no task exists, so no step can ever happen and gather
    completes at once with [[]]; imported as a module, it raises
    [NameError] before any session exists. *)
Theorem multiple_clients_empty srv wr mode fs :
  match multiple_clients_start mode [] fs with
  | Err e => mode = Imported /\ e = NameError "asyncio"
  | Ok w0 =>
      mode = RunAsMain /\
      forall sched w, run srv wr [] w0 sched = Some w ->
        w = w0 /\ gather_result w = Some (Ok []) /\ b_log w = []
  end.
Proof.
  destruct mode; simpl; [split; [done|] | done].
  intros [|i sched] w; simpl.
  - intros H. injection H as <-. done.
  - unfold step. simpl. discriminate.
Qed.

(** C9: [query_into_search_input] issues, inside one session, a prefix of
    navigate, wait, click, type, press "Enter", wait, snapshot; the prefix
    stops only at a failing call, whose exception is raised; when all
    seven calls are made the result is the extracted snapshot text (or the
    snapshot call's exception). *)
Theorem query_into_search_input_call_order (srv : nat -> response) u ref q fs :
  let '(res, w) := query_into_search_input srv u ref q (sinit fs) in
  s_fs w = fs /\
  s_log w = EvOpen :: map EvCall (firstn (s_next w) (search_calls u ref q)) ++ [EvClose] /\
  1 <= s_next w <= 7 /\
  (forall j, j < s_next w - 1 -> exists r, srv j = RespOk r) /\
  (s_next w < 7 -> exists e, srv (s_next w - 1) = RespErr e /\ res = Err e) /\
  (s_next w = 7 ->
     match srv 6 with RespOk r => res = _extract_text r | RespErr e => res = Err e end).
Proof.
  unfold query_into_search_input, with_client, _open_page, bind, call_tool, ret,
    raise_, log_ev; simpl.
  repeat match goal with
         | |- context [match srv ?n with _ => _ end] => destruct (srv n) eqn:?; simpl
         end.
  all: split_and!; try reflexivity; try lia.
  all: try (intros j Hj; do 6 (destruct j as [|j]; [first [solve [eauto] | lia]|]); lia).
  all: try (intros; eauto).
  all: try (intros; lia).
Qed.

(** C1: whatever the interleaving of the page tasks, a list returned by
    [multiple_clients] has one entry per request, and entry [i] carries the
    name and url of request [i] and the text of task [i]'s own snapshot. *)
Theorem multiple_clients_results_aligned srv wr items fs sched w rs :
  run srv wr items (multiple_clients items fs) sched = Some w ->
  gather_result w = Some (Ok rs) ->
  length rs = length items /\
  forall i it r, items !! i = Some it -> rs !! i = Some r ->
    r_name r = name it /\ r_url r = url it /\
    exists res, srv i 3 = RespOk res /\ _extract_text res = Ok (snapshot r).
Proof. apply gather_ok_results. Qed.

(** C2: at every instant of every run, at most 5 client sessions are open
    (sessions opened minus sessions closed), and every task acquires a
    permit before opening its session, closes it before releasing, and
    acquires and releases at most once; a finished task, successful or
    failed, has acquired and released exactly once. *)
Theorem multiple_clients_sessions_bounded srv wr items fs sched w :
  run srv wr items (multiple_clients items fs) sched = Some w ->
  open_sessions (b_log w) <= 5 /\
  count_ev is_close (map snd (b_log w)) <= count_ev is_open (map snd (b_log w)) /\
  (forall i, i < length items ->
     count_ev is_release (task_log i (b_log w)) <= count_ev is_close (task_log i (b_log w)) /\
     count_ev is_close (task_log i (b_log w)) <= count_ev is_open (task_log i (b_log w)) /\
     count_ev is_open (task_log i (b_log w)) <= count_ev is_acquire (task_log i (b_log w)) /\
     count_ev is_acquire (task_log i (b_log w)) <= 1 /\
     (forall o, b_tasks w !! i = Some (TDone o) ->
        count_ev is_acquire (task_log i (b_log w)) = 1 /\
        count_ev is_release (task_log i (b_log w)) = 1)).
Proof.
  intros Hrun. pose proof (reachable_Inv _ _ _ _ _ _ Hrun) as Hinv.
  destruct Hinv as (Hlen & Hsem & Hopen & Hexc & Htasks) eqn:HI.
  assert (Hsub : tcount in_session (b_tasks w) <= tcount holds (b_tasks w)).
  { apply tcount_mono. intros [| | | | |]; simpl; congruence. }
  split_and!.
  - unfold open_sessions. lia.
  - lia.
  - intros i Hi.
    destruct (task_at _ _ _ _ Hinv Hi) as (it & ts & Hit & Hts & Ha & Ho & Hc & Hr & _).
    rewrite Ha, Ho, Hc, Hr.
    split_and!; try (destruct ts; simpl; lia).
    intros o Hto. rewrite Hts in Hto. injection Hto as ->. simpl. lia.
Qed.

(** C3: once a tool call of task [i] has failed with [e], the batch can
    never return a result list; when task [i] has finished, the batch has
    raised the exception of the first task to fail, which is [e] when no
    other task has failed. *)
Theorem multiple_clients_failure_aborts_batch srv wr items fs sched w i k e :
  run srv wr items (multiple_clients items fs) sched = Some w ->
  i < length items -> k < calls_issued i (b_log w) -> srv i k = RespErr e ->
  (forall rs, gather_result w <> Some (Ok rs)) /\
  (forall o, b_tasks w !! i = Some (TDone o) ->
     exists e0, gather_result w = Some (Err e0) /\
       first_failure (map snd (b_log w)) = Some e0 /\
       ((forall j e', In (j, EvFinish (Some e')) (b_log w) -> j = i) -> e0 = e)).
Proof.
  intros Hrun Hi Hk Hs. pose proof (reachable_Inv _ _ _ _ _ _ Hrun) as Hinv.
  destruct (task_at _ _ _ _ Hinv Hi)
    as (it & ts & Hit & Hts & _ & _ & _ & _ & _ & Hf & _ & Hfin).
  destruct Hinv as (Hlen & _ & _ & Hexc & _).
  pose proof (Hf k e Hk Hs) as Hout.
  split.
  - intros rs Hg. unfold gather_result in Hg.
    destruct (b_exc w); [discriminate|].
    destruct (collect_results (b_tasks w)) as [rs'|] eqn:Hc; [|discriminate].
    injection Hg as ->. destruct (collect_results_spec _ _ Hc) as [Hl Hat].
    destruct (lookup_lt_is_Some_2 rs i) as [r Hr]; [lia|].
    rewrite (Hat i r Hr) in Hts. injection Hts as <-. discriminate.
  - intros o Ho. rewrite Hts in Ho. injection Ho as ->.
    simpl in Hout. injection Hout as ->.
    assert (Hin : In (EvFinish (Some e)) (task_log i (b_log w))).
    { apply Hfin. eauto. }
    destruct (first_failure_some _ _ (task_log_sub _ _ _ Hin)) as [e0 He0].
    exists e0. split_and!.
    + unfold gather_result. by rewrite Hexc, He0.
    + done.
    + intros Huniq.
      apply first_failure_in, in_map_iff in He0 as ([j ev] & Hev & Hj). simpl in Hev. subst ev.
      rewrite (Huniq j e0 Hj) in Hj.
      apply task_log_in, Hfin in Hj as (o' & Ho' & He').
      injection Ho' as <-. simpl in He'. congruence.
Qed.

(* ------------------------------------------------------------------ *)
(** ** Witnesses: the hypotheses of the claims hold on concrete inputs *)

Lemma multiple_clients_results_aligned_witness :
  run demo_srv_ok no_write_failure demo_items (multiple_clients demo_items ∅) demo_sched_ok
    = Some (demo_world demo_srv_ok demo_sched_ok) /\
  gather_result (demo_world demo_srv_ok demo_sched_ok) = Some (Ok demo_results) /\
  length demo_results = length demo_items /\
  forall i it r, demo_items !! i = Some it -> demo_results !! i = Some r ->
    r_name r = name it /\ r_url r = url it /\
    exists res, demo_srv_ok i 3 = RespOk res /\ _extract_text res = Ok (snapshot r).
Proof.
  assert (H1 : run demo_srv_ok no_write_failure demo_items (multiple_clients demo_items ∅) demo_sched_ok
               = Some (demo_world demo_srv_ok demo_sched_ok)) by (vm_compute; reflexivity).
  assert (H2 : gather_result (demo_world demo_srv_ok demo_sched_ok) = Some (Ok demo_results))
    by (vm_compute; reflexivity).
  split; [exact H1|split; [exact H2|]].
  exact (multiple_clients_results_aligned demo_srv_ok no_write_failure demo_items ∅ demo_sched_ok _ _ H1 H2).
Defined.

Lemma multiple_clients_sessions_bounded_witness :
  run demo_srv_ok no_write_failure demo_items (multiple_clients demo_items ∅) [0;1;0;1]
    = Some (demo_world demo_srv_ok [0;1;0;1]) /\
  open_sessions (b_log (demo_world demo_srv_ok [0;1;0;1])) = 2 /\
  open_sessions (b_log (demo_world demo_srv_ok [0;1;0;1])) <= 5.
Proof.
  assert (H1 : run demo_srv_ok no_write_failure demo_items (multiple_clients demo_items ∅) [0;1;0;1]
               = Some (demo_world demo_srv_ok [0;1;0;1])) by (vm_compute; reflexivity).
  split; [exact H1|split; [vm_compute; reflexivity|]].
  exact (proj1 (multiple_clients_sessions_bounded demo_srv_ok no_write_failure demo_items ∅ [0;1;0;1] _ H1)).
Defined.

Lemma multiple_clients_failure_aborts_batch_witness :
  run demo_srv_fail no_write_failure demo_items (multiple_clients demo_items ∅) demo_sched_fail
    = Some (demo_world demo_srv_fail demo_sched_fail) /\
  0 < length demo_items /\
  0 < calls_issued 0 (b_log (demo_world demo_srv_fail demo_sched_fail)) /\
  demo_srv_fail 0 0 = RespErr (ToolError "net") /\
  (forall rs, gather_result (demo_world demo_srv_fail demo_sched_fail) <> Some (Ok rs)) /\
  (forall o, b_tasks (demo_world demo_srv_fail demo_sched_fail) !! 0 = Some (TDone o) ->
     exists e0, gather_result (demo_world demo_srv_fail demo_sched_fail) = Some (Err e0) /\
       first_failure (map snd (b_log (demo_world demo_srv_fail demo_sched_fail))) = Some e0 /\
       ((forall j e', In (j, EvFinish (Some e')) (b_log (demo_world demo_srv_fail demo_sched_fail))
                        -> j = 0) -> e0 = ToolError "net")).
Proof.
  assert (H1 : run demo_srv_fail no_write_failure demo_items (multiple_clients demo_items ∅) demo_sched_fail
               = Some (demo_world demo_srv_fail demo_sched_fail)) by (vm_compute; reflexivity).
  assert (H2 : 0 < length demo_items) by (simpl; lia).
  assert (H3 : 0 < calls_issued 0 (b_log (demo_world demo_srv_fail demo_sched_fail)))
    by (vm_compute; lia).
  assert (H4 : demo_srv_fail 0 0 = RespErr (ToolError "net")) by reflexivity.
  split_and!; try assumption;
  [ exact (proj1 (multiple_clients_failure_aborts_batch demo_srv_fail no_write_failure demo_items ∅
                    demo_sched_fail _ 0 0 _ H1 H2 H3 H4))
  | exact (proj2 (multiple_clients_failure_aborts_batch demo_srv_fail no_write_failure demo_items ∅
                    demo_sched_fail _ 0 0 _ H1 H2 H3 H4)) ].
Defined.

Lemma init_missing_url_no_configuration_error_witness :
  os_getenv [] "PLAYWRIGHT_MCP_URL" = None /\
  (forall u, checked_url_transport u <> Err ConfigurationError) /\
  PLAYWRIGHT_MCP_URL [] = None /\
  (forall e, __init__ checked_url_transport (PLAYWRIGHT_MCP_URL []) = Err e <->
             checked_url_transport None = Err e) /\
  __init__ checked_url_transport (PLAYWRIGHT_MCP_URL []) <> Err ConfigurationError.
Proof.
  assert (H1 : os_getenv [] "PLAYWRIGHT_MCP_URL" = None) by reflexivity.
  assert (H2 : forall u, checked_url_transport u <> Err ConfigurationError).
  { intros [s|]; simpl; [destruct (String.prefix "http" s)|]; discriminate. }
  split; [exact H1|split; [exact H2|]].
  exact (init_missing_url_no_configuration_error checked_url_transport [] H1 H2).
Defined.

Lemma batch_screenshot_file_written_witness :
  report_items !! 0 = Some (mkPageItem "report" "http://r") /\
  b_tasks report_world !! 0 = Some (TInSession 2) /\
  report_srv 0 2 = RespOk (mkToolResult [ImageContent "aGk=" "image/png"]) /\
  first_image (content (mkToolResult [ImageContent "aGk=" "image/png"]))
    = Some (ImageContent "aGk=" "image/png") /\
  step report_srv no_write_failure report_items report_world 0
    = Some (match step report_srv no_write_failure report_items report_world 0 with
            | Some w' => w' | None => report_world end) /\
  b_fs (match step report_srv no_write_failure report_items report_world 0 with
        | Some w' => w' | None => report_world end)
    = <["report.png" := [Byte.x68; Byte.x69]]> (b_fs report_world).
Proof.
  assert (H1 : report_items !! 0 = Some (mkPageItem "report" "http://r")) by reflexivity.
  assert (H2 : b_tasks report_world !! 0 = Some (TInSession 2)) by reflexivity.
  assert (H3 : report_srv 0 2 = RespOk (mkToolResult [ImageContent "aGk=" "image/png"]))
    by reflexivity.
  assert (H4 : first_image (content (mkToolResult [ImageContent "aGk=" "image/png"]))
               = Some (ImageContent "aGk=" "image/png")) by reflexivity.
  assert (H5 : step report_srv no_write_failure report_items report_world 0
               = Some (match step report_srv no_write_failure report_items report_world 0 with
                       | Some w' => w' | None => report_world end)) by (vm_compute; reflexivity).
  split_and!; try assumption.
  exact (proj1 (batch_screenshot_file_written report_srv no_write_failure report_items report_world _ 0 _ _
                  "aGk=" "image/png" H1 H2 H3 H4 H5)).
Defined.


(* ------------------------------------------------------------------ *)
(** ** Further properties of the batch *)

Lemma total_rank_insert (l : list tstate) i a b :
  l !! i = Some a -> total_rank (<[i := b]> l) + rank a = total_rank l + rank b.
Proof.
  revert i; induction l as [|t l IH]; intros [|i] H; simpl in *; try discriminate.
  - injection H as ->. lia.
  - specialize (IH i H). lia.
Qed.

Lemma total_rank_replicate n : total_rank (replicate n TWaiting) = 8 * n.
Proof. induction n as [|n IH]; simpl; lia. Qed.

Lemma page_call_bound it k c : page_call it k = Some c -> k <= 3.
Proof. intros H. destruct k as [|[|[|[|k]]]]; simpl in H; try discriminate; lia. Qed.

Lemma rank_step srv wr i it ts ts' evs :
  worker_step srv wr i it ts = Some (ts', evs) -> rank ts' < rank ts.
Proof.
  intros H.
  destruct (worker_step_shape _ _ _ _ _ _ _ H)
    as [(-> & -> & _)|[(-> & -> & _)|[(k & c & r & ws & -> & Hk & _ & _ & -> & _ & _)
       |[(k & c & o & ws' & -> & Hc & -> & _)|[(o & -> & -> & _)|(o & -> & -> & _)]]]]];
    simpl; try lia.
  apply page_call_bound in Hc. lia.
Qed.

Lemma step_inv_shape srv wr items w i w' :
  step srv wr items w i = Some w' ->
  exists it ts ts' evs, items !! i = Some it /\ b_tasks w !! i = Some ts /\
    blocked ts (b_sem w) = false /\ worker_step srv wr i it ts = Some (ts', evs) /\
    w' = mkBWorld (sem_after ts (b_sem w)) (<[i := ts']> (b_tasks w))
           (apply_writes (b_fs w) evs) (b_log w ++ map (pair i) evs)
           (match b_exc w with Some e => Some e | None => first_failure evs end).
Proof.
  unfold step. destruct (items !! i) as [it|] eqn:Hit; [|discriminate].
  destruct (b_tasks w !! i) as [ts|] eqn:Hts; [|discriminate].
  destruct (blocked ts (b_sem w)) eqn:Hb; [discriminate|].
  destruct (worker_step srv wr i it ts) as [[ts' evs]|] eqn:Hw; [|discriminate].
  intros H. injection H as <-. exists it, ts, ts', evs. done.
Qed.

Lemma step_rank srv wr items w i w' :
  step srv wr items w i = Some w' -> total_rank (b_tasks w') < total_rank (b_tasks w).
Proof.
  intros H. destruct (step_inv_shape _ _ _ _ _ _ H)
    as (it & ts & ts' & evs & _ & Hts & _ & Hw & ->); simpl.
  pose proof (total_rank_insert _ _ _ ts' Hts). pose proof (rank_step _ _ _ _ _ _ _ Hw). lia.
Qed.

Lemma run_rank srv wr items w sched w' :
  run srv wr items w sched = Some w' ->
  length sched + total_rank (b_tasks w') <= total_rank (b_tasks w).
Proof.
  revert w; induction sched as [|i sched IH]; intros w H; simpl in H.
  - injection H as <-. simpl; lia.
  - destruct (step srv wr items w i) as [w1|] eqn:Hs; [|discriminate].
    specialize (IH _ H). pose proof (step_rank _ _ _ _ _ _ Hs). simpl. lia.
Qed.

Lemma sane_step srv wr i it ts ts' evs :
  worker_step srv wr i it ts = Some (ts', evs) -> sane ts'.
Proof.
  intros H.
  destruct (worker_step_shape _ _ _ _ _ _ _ H)
    as [(-> & -> & _)|[(-> & -> & _)|[(k & c & r & ws & -> & Hk & _ & _ & -> & _ & _)
       |[(k & c & o & ws' & -> & Hc & -> & _)|[(o & -> & -> & _)|(o & -> & -> & _)]]]]];
    simpl; try lia; done.
Qed.

Lemma run_sane srv wr items w sched w' :
  Forall sane (b_tasks w) -> run srv wr items w sched = Some w' -> Forall sane (b_tasks w').
Proof.
  revert w; induction sched as [|i sched IH]; intros w Hs H; simpl in H.
  - injection H as <-. done.
  - destruct (step srv wr items w i) as [w1|] eqn:Hst; [|discriminate].
    apply (IH w1); [|done].
    destruct (step_inv_shape _ _ _ _ _ _ Hst) as (it & ts & ts' & evs & _ & _ & _ & Hw & ->).
    simpl. apply Forall_insert; [done|]. eapply sane_step; eauto.
Qed.

Lemma reachable_sane srv wr items fs sched w :
  run srv wr items (multiple_clients items fs) sched = Some w -> Forall sane (b_tasks w).
Proof.
  intros H. eapply run_sane; [|exact H]. simpl. apply Forall_replicate. done.
Qed.

Lemma process_page_item_step_some s wri it k :
  k <= 3 -> exists x, process_page_item_step s wri it k = Some x.
Proof. intros Hk. destruct k as [|[|[|[|k]]]]; [..|lia]; eexists; reflexivity. Qed.

Lemma tcount_zero p (l : list tstate) :
  (forall i t, l !! i = Some t -> p t = false) -> tcount p l = 0.
Proof.
  induction l as [|t l IH]; intros H; simpl; [done|].
  rewrite (H 0 t eq_refl). apply (IH (fun i => H (S i))).
Qed.

Lemma collect_results_all_ok (l : list tstate) :
  (forall i t, l !! i = Some t -> exists r, t = TDone (Ok r)) ->
  exists rs, collect_results l = Some rs.
Proof.
  induction l as [|t l IH]; intros H; simpl; [eauto|].
  destruct (H 0 t eq_refl) as [r ->].
  destruct (IH (fun i => H (S i))) as [rs ->]. eauto.
Qed.

Lemma calls_of_app l1 l2 : calls_of (l1 ++ l2) = calls_of l1 ++ calls_of l2.
Proof. induction l1 as [|[] l1 IH]; simpl; try rewrite IH; done. Qed.

Lemma count_calls evs : count_ev is_call evs = length (calls_of evs).
Proof. induction evs as [|[] evs IH]; simpl; lia. Qed.

Lemma page_call_lookup it k : page_call it k = page_calls it !! k.
Proof. destruct k as [|[|[|[|k]]]]; reflexivity. Qed.

Lemma worker_step_calls srv wr i it ts ts' evs :
  worker_step srv wr i it ts = Some (ts', evs) ->
  calls_of evs = [] \/ exists k c, ts = TInSession k /\ page_call it k = Some c /\ calls_of evs = [c].
Proof.
  intros H.
  destruct (worker_step_shape _ _ _ _ _ _ _ H)
    as [(-> & -> & ->)|[(-> & -> & ->)|[(k & c & r & ws & -> & Hk & Hc & _ & -> & -> & Hws)
       |[(k & c & o & ws' & -> & Hc & -> & -> & Hws' & _)|[(o & -> & -> & ->)|(o & -> & -> & ->)]]]]];
    try (left; reflexivity).
  - right. exists k, c. split_and!; [done|done|].
    destruct Hws as [->|(f & b & ->)]; reflexivity.
  - right. exists k, c. split_and!; [done|done|].
    destruct Hws' as [->|(f & b & ->)]; reflexivity.
Qed.

Lemma prefix_snoc {A} (l1 l2 : list A) x :
  l1 `prefix_of` l2 -> l2 !! length l1 = Some x -> (l1 ++ [x]) `prefix_of` l2.
Proof.
  intros [k ->] H. rewrite lookup_app_r in H by lia. rewrite Nat.sub_diag in H.
  destruct k as [|y k]; simpl in H; [discriminate|]. injection H as ->.
  exists k. rewrite <- app_assoc. reflexivity.
Qed.

Lemma run_calls_prefix srv wr items w sched w' :
  Inv srv items w ->
  (forall i it, items !! i = Some it -> calls_of (task_log i (b_log w)) `prefix_of` page_calls it) ->
  run srv wr items w sched = Some w' ->
  forall i it, items !! i = Some it -> calls_of (task_log i (b_log w')) `prefix_of` page_calls it.
Proof.
  revert w; induction sched as [|j sched IH]; intros w HI HP H; simpl in H.
  - injection H as <-. done.
  - destruct (step srv wr items w j) as [w1|] eqn:Hst; [|discriminate].
    apply (IH w1); [eapply step_Inv; eauto| |done].
    destruct (step_inv_shape _ _ _ _ _ _ Hst) as (itj & ts & ts' & evs & Hitj & Hts & _ & Hw & ->).
    intros i it Hit. simpl. rewrite task_log_app, task_log_tag, calls_of_app.
    destruct (Nat.eqb_spec j i) as [<-|Hne]; [|rewrite app_nil_r; auto].
    rewrite Hit in Hitj. injection Hitj as <-.
    destruct (worker_step_calls _ _ _ _ _ _ _ Hw) as [->|(k & c & -> & Hc & ->)];
      [rewrite app_nil_r; auto|].
    destruct HI as (_ & _ & _ & _ & Htask).
    destruct (Htask j it _ Hit Hts) as (_ & _ & _ & _ & Hk & _).
    simpl in Hk. rewrite count_calls in Hk.
    apply prefix_snoc; [auto|]. rewrite Hk, <- page_call_lookup. exact Hc.
Qed.

Lemma apply_writes_lookup fs evs f :
  apply_writes fs evs !! f = fs !! f \/
  exists b, In (EvWrite f b) evs /\ apply_writes fs evs !! f = Some b.
Proof.
  unfold apply_writes. revert fs; induction evs as [|ev evs IH]; intros fs; [left; done|].
  destruct ev; simpl;
    try (destruct (IH fs) as [H|(b & Hin & H)]; [left; exact H|right; exists b; split; [right|]; done]).
  destruct (IH (<[filename := data]> fs)) as [H|(b & Hin & H)].
  - destruct (decide (filename = f)) as [->|Hne].
    + right. exists data. split; [left; done|]. rewrite H. apply lookup_insert_eq.
    + left. rewrite H. apply lookup_insert_ne. done.
  - right. exists b. split; [right|]; done.
Qed.

Lemma worker_step_write srv wr i it ts ts' evs f b' :
  worker_step srv wr i it ts = Some (ts', evs) -> In (EvWrite f b') evs ->
  f = String.append (name it) ".png" /\
  exists r b, srv i 2 = RespOk r /\ _extract_image_bytes r = Ok (Some b) /\ b <> [] /\
    stored_bytes (wr i) b = Some b'.
Proof.
  intros H Hin. destruct ts as [| |k|o|o|o]; simpl in H;
    try discriminate; try (injection H as <- <-; simpl in Hin; intuition discriminate).
  unfold process_page_item_step in H.
  destruct k as [|[|[|[|k]]]]; simpl in H; try discriminate;
    destruct (srv i _) as [r|e] eqn:Hs; try (injection H as <- <-; simpl in Hin; intuition discriminate);
    try (destruct (_extract_text r); injection H as <- <-; simpl in Hin; intuition discriminate).
  destruct (_extract_image_bytes r) as [[img|]|e] eqn:He;
    try (injection H as <- <-; simpl in Hin; intuition discriminate).
  destruct img as [|x xs]; simpl in H;
    [injection H as <- <-; simpl in Hin; intuition discriminate|].
  destruct (wr i) as [|e [n|]] eqn:Hw; simpl in H; injection H as <- <-; simpl in Hin.
  - destruct Hin as [Hin|[Hin|[]]]; [discriminate|]. injection Hin as <- <-.
    split; [done|]. exists r, (x :: xs). done.
  - destruct Hin as [Hin|[Hin|[]]]; [discriminate|]. injection Hin as <- <-.
    split; [done|]. exists r, (x :: xs). done.
  - destruct Hin as [Hin|[]]. discriminate.
Qed.

Lemma run_files srv wr items (fs : gmap string bytes) w sched w' :
  (forall f, b_fs w !! f = fs !! f \/
     exists i it r b b', items !! i = Some it /\ f = String.append (name it) ".png" /\
       srv i 2 = RespOk r /\ _extract_image_bytes r = Ok (Some b) /\ b <> [] /\
       stored_bytes (wr i) b = Some b' /\ b_fs w !! f = Some b') ->
  run srv wr items w sched = Some w' ->
  forall f, b_fs w' !! f = fs !! f \/
     exists i it r b b', items !! i = Some it /\ f = String.append (name it) ".png" /\
       srv i 2 = RespOk r /\ _extract_image_bytes r = Ok (Some b) /\ b <> [] /\
       stored_bytes (wr i) b = Some b' /\ b_fs w' !! f = Some b'.
Proof.
  revert w; induction sched as [|j sched IH]; intros w HP H; simpl in H.
  - injection H as <-. done.
  - destruct (step srv wr items w j) as [w1|] eqn:Hst; [|discriminate].
    apply (IH w1); [|done].
    destruct (step_inv_shape _ _ _ _ _ _ Hst) as (it & ts & ts' & evs & Hit & _ & _ & Hw & ->).
    intros f. simpl.
    destruct (apply_writes_lookup (b_fs w) evs f) as [Hf|(b' & Hin & Hf)]; rewrite Hf; [apply HP|].
    destruct (worker_step_write _ _ _ _ _ _ _ _ _ Hw Hin) as (-> & r & b & Hs & He & Hb & Hsb).
    right. exists j, it, r, b, b'. done.
Qed.

(** [multiple_clients] never deadlocks on its semaphore: in a reachable
    state where no task can take a step, every task has finished and
    [asyncio.gather] has completed, with the results or an exception. *)
Theorem multiple_clients_no_deadlock srv wr items fs sched w :
  run srv wr items (multiple_clients items fs) sched = Some w ->
  (forall i, step srv wr items w i = None) ->
  (forall i ts, b_tasks w !! i = Some ts -> exists o, ts = TDone o) /\
  exists res, gather_result w = Some res.
Proof.
  intros Hrun Hstuck.
  pose proof (reachable_Inv _ _ _ _ _ _ Hrun) as (Hlen & Hsem & _ & Hexc & Htask).
  pose proof (reachable_sane _ _ _ _ _ _ Hrun) as Hsane.
  assert (Hitem : forall i ts, b_tasks w !! i = Some ts -> exists it, items !! i = Some it).
  { intros i ts Hts. apply lookup_lt_is_Some_2.
    apply lookup_lt_Some in Hts. lia. }
  assert (Hact : forall i ts, b_tasks w !! i = Some ts -> ts = TWaiting \/ exists o, ts = TDone o).
  { intros i ts Hts. destruct (Hitem i ts Hts) as [it Hit].
    specialize (Hstuck i). unfold step in Hstuck. rewrite Hit, Hts in Hstuck.
    destruct ts as [| |k|o|o|o]; simpl in Hstuck;
      [left; done|discriminate| |discriminate|discriminate|right; eauto].
    pose proof (proj1 (Forall_lookup _ _) Hsane i _ Hts) as Hk. simpl in Hk.
    destruct (process_page_item_step_some (srv i) (wr i) it k Hk) as [[ts' evs] Hx].
    rewrite Hx in Hstuck. discriminate. }
  assert (Hdone : forall i ts, b_tasks w !! i = Some ts -> exists o, ts = TDone o).
  { intros i ts Hts. destruct (Hact i ts Hts) as [->|Hd]; [|exact Hd].
    assert (Hh : tcount holds (b_tasks w) = 0).
    { apply tcount_zero. intros j t Ht.
      destruct (Hact j t Ht) as [->|[o ->]]; reflexivity. }
    destruct (Hitem i _ Hts) as [it Hit].
    specialize (Hstuck i). unfold step in Hstuck. rewrite Hit, Hts in Hstuck.
    replace (b_sem w) with 5 in Hstuck by lia. discriminate. }
  split; [exact Hdone|].
  unfold gather_result. destruct (b_exc w) as [e|] eqn:He; [eauto|].
  destruct (collect_results_all_ok (b_tasks w)) as [rs ->]; [|eauto].
  intros i t Ht. destruct (Hdone i t Ht) as [[r|e] ->]; [eauto|].
  exfalso. destruct (Hitem i _ Ht) as [it Hit].
  destruct (Htask i it _ Hit Ht) as (_ & _ & _ & _ & _ & _ & _ & Hfin).
  assert (Hin : In (EvFinish (Some e)) (task_log i (b_log w))).
  { apply Hfin. exists (Err e). done. }
  apply task_log_sub in Hin. destruct (first_failure_some _ _ Hin) as [e0 He0].
  congruence.
Qed.

(** Whatever the interleaving, and whether the task succeeds or fails,
    the tool calls issued by the task for request [i] are, in order, a
    prefix of: navigate to the request's url, wait 5, full-page PNG
    screenshot, snapshot. *)
Theorem multiple_clients_task_call_order srv wr items fs sched w i it :
  run srv wr items (multiple_clients items fs) sched = Some w ->
  items !! i = Some it ->
  calls_of (task_log i (b_log w)) `prefix_of` page_calls it.
Proof.
  intros H. revert i it. eapply run_calls_prefix; [apply Inv_init| |exact H].
  intros i it _. simpl. apply prefix_nil.
Qed.

(** [multiple_clients] writes no file other than [name + ".png"] of one of
    its requests: after any run, every file either keeps its initial
    content or is [name + ".png"] for some request [i] and holds what task
    [i]'s write stored of the non-empty decoded data of the first image
    item of its screenshot result: all of it, or a prefix when the write
    raised after [open]. *)
Theorem multiple_clients_files_written srv wr items fs sched w :
  run srv wr items (multiple_clients items fs) sched = Some w ->
  forall f, b_fs w !! f = fs !! f \/
     exists i it r b b', items !! i = Some it /\ f = String.append (name it) ".png" /\
       srv i 2 = RespOk r /\ _extract_image_bytes r = Ok (Some b) /\ b <> [] /\
       stored_bytes (wr i) b = Some b' /\ b_fs w !! f = Some b'.
Proof. intros H. eapply run_files; [|exact H]. intros f. left. reflexivity. Qed.

Lemma multiple_clients_no_deadlock_witness :
  run demo_srv_fail no_write_failure demo_items (multiple_clients demo_items ∅) demo_sched_fail
    = Some (demo_world demo_srv_fail demo_sched_fail) /\
  (forall i, step demo_srv_fail no_write_failure demo_items (demo_world demo_srv_fail demo_sched_fail) i = None) /\
  exists res, gather_result (demo_world demo_srv_fail demo_sched_fail) = Some res.
Proof.
  assert (H1 : run demo_srv_fail no_write_failure demo_items (multiple_clients demo_items ∅) demo_sched_fail
               = Some (demo_world demo_srv_fail demo_sched_fail)) by (vm_compute; reflexivity).
  assert (H2 : forall i, step demo_srv_fail no_write_failure demo_items
                           (demo_world demo_srv_fail demo_sched_fail) i = None)
    by (intros [|[|i]]; vm_compute; reflexivity).
  split; [exact H1|split; [exact H2|]].
  exact (proj2 (multiple_clients_no_deadlock demo_srv_fail no_write_failure demo_items ∅ demo_sched_fail _ H1 H2)).
Defined.

Lemma multiple_clients_task_call_order_witness :
  run demo_srv_fail no_write_failure demo_items (multiple_clients demo_items ∅) demo_sched_fail
    = Some (demo_world demo_srv_fail demo_sched_fail) /\
  demo_items !! 0 = Some (mkPageItem "A" "http://x") /\
  calls_of (task_log 0 (b_log (demo_world demo_srv_fail demo_sched_fail)))
    = [BrowserNavigate "http://x"] /\
  calls_of (task_log 0 (b_log (demo_world demo_srv_fail demo_sched_fail)))
    `prefix_of` page_calls (mkPageItem "A" "http://x").
Proof.
  assert (H1 : run demo_srv_fail no_write_failure demo_items (multiple_clients demo_items ∅) demo_sched_fail
               = Some (demo_world demo_srv_fail demo_sched_fail)) by (vm_compute; reflexivity).
  assert (H2 : demo_items !! 0 = Some (mkPageItem "A" "http://x")) by reflexivity.
  split; [exact H1|split; [exact H2|split; [vm_compute; reflexivity|]]].
  exact (multiple_clients_task_call_order demo_srv_fail no_write_failure demo_items ∅ demo_sched_fail _ 0 _ H1 H2).
Defined.

Lemma multiple_clients_files_written_witness :
  run demo_srv_ok no_write_failure demo_items (multiple_clients demo_items ∅) demo_sched_ok
    = Some (demo_world demo_srv_ok demo_sched_ok) /\
  b_fs (demo_world demo_srv_ok demo_sched_ok) !! "A.png" = Some [Byte.x68; Byte.x69] /\
  (b_fs (demo_world demo_srv_ok demo_sched_ok) !! "A.png" = (∅ : gmap string bytes) !! "A.png" \/
   exists i it r b b', demo_items !! i = Some it /\ "A.png" = String.append (name it) ".png" /\
     demo_srv_ok i 2 = RespOk r /\ _extract_image_bytes r = Ok (Some b) /\ b <> [] /\
     stored_bytes (no_write_failure i) b = Some b' /\
     b_fs (demo_world demo_srv_ok demo_sched_ok) !! "A.png" = Some b').
Proof.
  assert (H1 : run demo_srv_ok no_write_failure demo_items (multiple_clients demo_items ∅) demo_sched_ok
               = Some (demo_world demo_srv_ok demo_sched_ok)) by (vm_compute; reflexivity).
  split; [exact H1|split; [vm_compute; reflexivity|]].
  exact (multiple_clients_files_written demo_srv_ok no_write_failure demo_items ∅ demo_sched_ok _ H1 "A.png").
Defined.

(* ------------------------------------------------------------------ *)
(** ** Further properties of the single-session operations *)

(** [extract_snapshot] opens one session and always closes it; inside it
    issues a prefix of navigate, wait 5, snapshot, stopping only at a
    failing call, whose exception it raises; it writes no file; after the
    three calls its result is [_extract_text] of the snapshot result. *)
Theorem extract_snapshot_session (srv : nat -> response) u fs :
  let '(res, w) := extract_snapshot srv u (sinit fs) in
  s_fs w = fs /\
  s_log w = EvOpen :: map EvCall (firstn (s_next w) (snapshot_calls u)) ++ [EvClose] /\
  1 <= s_next w <= 3 /\
  (forall j, j < s_next w - 1 -> exists r, srv j = RespOk r) /\
  (s_next w < 3 -> exists e, srv (s_next w - 1) = RespErr e /\ res = Err e) /\
  (s_next w = 3 ->
     match srv 2 with RespOk r => res = _extract_text r | RespErr e => res = Err e end).
Proof.
  unfold extract_snapshot, with_client, _open_page, bind, call_tool, ret, raise_, log_ev; simpl.
  repeat match goal with
         | |- context [match srv ?n with _ => _ end] => destruct (srv n) eqn:?; simpl
         end.
  all: split_and!; try reflexivity; try lia.
  all: try (intros j Hj; do 2 (destruct j as [|j]; [first [solve [eauto] | lia]|]); lia).
  all: try (intros; eauto).
  all: try (intros; lia).
Qed.

(** [take_screenshot] opens one session and always closes it; inside it
    issues a prefix of navigate, wait 5, screenshot, stopping only at a
    failing call, whose exception it raises.  A file is written only when
    all three calls succeed and the first image item decodes to non-empty
    bytes: [filename] is then set to those bytes, replacing any previous
    content, unless [open] or [write] raises, which [take_screenshot]
    re-raises (the file untouched, or holding the bytes stored before the
    failure).  When [_extract_image_bytes] raises, nothing is written. *)
Theorem take_screenshot_session (srv : nat -> response) wr u fn fp fs :
  let '(res, w) := take_screenshot srv wr u fn fp (sinit fs) in
  1 <= s_next w <= 3 /\
  (forall j, j < s_next w - 1 -> exists r, srv j = RespOk r) /\
  (s_next w < 3 ->
     exists e, srv (s_next w - 1) = RespErr e /\ res = Err e /\ s_fs w = fs /\
       s_log w = EvOpen :: map EvCall (firstn (s_next w) (screenshot_calls u fp)) ++ [EvClose]) /\
  (s_next w = 3 ->
     match srv 2 with
     | RespErr e =>
         res = Err e /\ s_fs w = fs /\
         s_log w = EvOpen :: map EvCall (screenshot_calls u fp) ++ [EvClose]
     | RespOk r =>
         match _extract_image_bytes r with
         | Ok (Some (b :: bs)) =>
             match wr with
             | WriteOk =>
                 res = Ok tt /\ s_fs w = <[fn := b :: bs]> fs /\
                 s_log w = EvOpen :: map EvCall (screenshot_calls u fp)
                             ++ [EvWrite fn (b :: bs); EvClose]
             | WriteFails e None =>
                 res = Err e /\ s_fs w = fs /\
                 s_log w = EvOpen :: map EvCall (screenshot_calls u fp) ++ [EvClose]
             | WriteFails e (Some n) =>
                 res = Err e /\ s_fs w = <[fn := take n (b :: bs)]> fs /\
                 s_log w = EvOpen :: map EvCall (screenshot_calls u fp)
                             ++ [EvWrite fn (take n (b :: bs)); EvClose]
             end
         | Ok _ =>
             res = Ok tt /\ s_fs w = fs /\
             s_log w = EvOpen :: map EvCall (screenshot_calls u fp) ++ [EvClose]
         | Err e =>
             res = Err e /\ s_fs w = fs /\
             s_log w = EvOpen :: map EvCall (screenshot_calls u fp) ++ [EvClose]
         end
     end).
Proof.
  unfold take_screenshot, with_client, _open_page, bind, call_tool, ret, raise_, log_ev,
    write_file; simpl.
  destruct (srv 0) as [r0|e0] eqn:H0; simpl.
  2:{ split_and!; try reflexivity; try lia. intros; eexists; split_and!; done. }
  destruct (srv 1) as [r1|e1] eqn:H1; simpl.
  2:{ split_and!; try reflexivity; try lia.
      - intros j Hj. destruct j as [|j]; [eauto|lia].
      - intros; eexists; split_and!; done. }
  destruct (srv 2) as [r2|e2] eqn:H2; simpl.
  2:{ split_and!; try reflexivity; try lia.
      - intros j Hj. destruct j as [|[|j]]; [eauto|eauto|lia].
      - intros _. split_and!; done. }
  destruct (_extract_image_bytes r2) as [[[|b bs]|]|e] eqn:He; simpl;
    [| destruct wr as [|e [n|]]; simpl | |];
    (split_and!; try reflexivity; try lia;
     [intros j Hj; destruct j as [|[|j]]; [eauto|eauto|lia] | intros _; split_and!; done]).
Qed.

Lemma extract_image_skip c cs :
  content_type c <> "image" ->
  extract_image_bytes_loop (c :: cs) = extract_image_bytes_loop cs.
Proof.
  intros Hc. simpl. destruct (String.eqb_spec (content_type c) "image"); [done|reflexivity].
Qed.

(** [_extract_image_bytes] skips the items that are not images and
    decodes the first image item only: items after it, images included,
    are never looked at; without any image item it returns [None]. *)
Theorem extract_image_bytes_first_image cs1 d m cs2 :
  (forall c, In c cs1 -> content_type c <> "image") ->
  _extract_image_bytes (mkToolResult cs1) = Ok None /\
  _extract_image_bytes (mkToolResult (cs1 ++ ImageContent d m :: cs2))
    = match b64decode d with Ok b => Ok (Some b) | Err e => Err e end.
Proof.
  unfold _extract_image_bytes; simpl. induction cs1 as [|c cs1 IH]; intros H.
  - split; [reflexivity|]. simpl. destruct (b64decode d); reflexivity.
  - simpl app. rewrite !extract_image_skip by (apply H; left; done).
    apply IH. intros c' Hc'. apply H. right. done.
Qed.

Lemma extract_snapshot_session_witness :
  fst (extract_snapshot (fun k => if Nat.eqb k 1 then RespErr (ToolError "timeout")
                                  else RespOk (mkToolResult [])) "http://x" (sinit ∅))
    = Err (ToolError "timeout") /\
  s_log (snd (extract_snapshot (fun k => if Nat.eqb k 1 then RespErr (ToolError "timeout")
                                         else RespOk (mkToolResult [])) "http://x" (sinit ∅)))
    = [EvOpen; EvCall (BrowserNavigate "http://x"); EvCall (BrowserWaitFor 5); EvClose].
Proof.
  pose proof (extract_snapshot_session
                (fun k => if Nat.eqb k 1 then RespErr (ToolError "timeout")
                          else RespOk (mkToolResult [])) "http://x" ∅) as H.
  simpl in H. destruct H as (_ & Hlog & _ & _ & Herr & _).
  destruct (Herr ltac:(lia)) as (e & He & Hres). simpl in He. injection He as <-.
  split; [exact Hres|exact Hlog].
Defined.

Lemma extract_image_bytes_first_image_witness :
  (forall c, In c [TextContent "t"] -> content_type c <> "image") /\
  _extract_image_bytes (mkToolResult [TextContent "t"; ImageContent "aGk=" "image/png";
                                      ImageContent "!!" "image/png"])
    = Ok (Some [Byte.x68; Byte.x69]).
Proof.
  assert (H : forall c, In c [TextContent "t"] -> content_type c <> "image").
  { intros c [<-|[]]. discriminate. }
  split; [exact H|].
  exact (proj2 (extract_image_bytes_first_image [TextContent "t"] "aGk=" "image/png"
                  [ImageContent "!!" "image/png"] H)).
Defined.

(* ------------------------------------------------------------------ *)
(** ** Properties of [multi_tab] *)

Lemma print_tabs_tools_spec tools_list w :
  print_tabs_tools tools_list w
  = (TOk tt, mkTWorld (t_log w ++ map TPrintTool
                         (List.filter (fun t => String.eqb (tool_name t) "browser_tabs") tools_list))
                      (t_next w)).
Proof.
  revert w; induction tools_list as [|t ts IH]; intros w; simpl.
  - rewrite app_nil_r. destruct w; reflexivity.
  - destruct (String.eqb (tool_name t) "browser_tabs"); simpl.
    + unfold tbind, tprint, tlog. rewrite IH. simpl. rewrite <- app_assoc. reflexivity.
    + apply IH.
Qed.

Lemma tcalls_of_app l1 l2 : tcalls_of (l1 ++ l2) = tcalls_of l1 ++ tcalls_of l2.
Proof. induction l1 as [|[] l1 IH]; simpl; try rewrite IH; done. Qed.

Lemma tcalls_of_prints ts : tcalls_of (map TPrintTool ts) = [].
Proof. induction ts; simpl; done. Qed.

Lemma last_app_cons {A} (x : A) l1 y l2 : last (x :: l1 ++ y :: l2) = last (y :: l2).
Proof.
  revert x; induction l1 as [|z l1 IH]; intros x; simpl; [done|].
  specialize (IH z). simpl in IH. rewrite IH. destruct l2; done.
Qed.

Ltac tab_session_cases :=
  repeat match goal with
         | |- context [match ?srv ?n with RespOk _ => _ | RespErr _ => _ end] =>
             destruct (srv n) eqn:?; simpl
         | |- context [match first_text ?r with TOk _ => _ | TErr _ => _ end] =>
             destruct (first_text r) eqn:?; simpl
         | |- context [tbind _ _] => unfold tbind, tcall, tret; simpl
         end.

(** [multi_tab] opens one session and always closes it; its tool calls are
    a prefix of: three new tabs (333, 666, 999), list, select tab 2,
    navigate to the Amazon home page, wait 5, list; it returns normally
    only after all eight. *)
Theorem multi_tab_session srv tools :
  let '(res, w) := multi_tab srv tools tinit in
  head (t_log w) = Some TOpen /\ last (t_log w) = Some TClose /\
  tcalls_of (t_log w) `prefix_of` multi_tab_calls /\
  t_next w = length (tcalls_of (t_log w)) /\
  (res = TOk tt -> tcalls_of (t_log w) = multi_tab_calls).
Proof.
  unfold multi_tab, with_tab_client, list_tools, tbind, tcall, tprint, traise, tlog,
    t_open_page, tret; simpl.
  destruct tools as [tl|e]; simpl.
  2:{ split_and!; try reflexivity; [exists multi_tab_calls; reflexivity|discriminate]. }
  rewrite print_tabs_tools_spec. simpl.
  tab_session_cases.
  all: rewrite <- ?app_assoc; simpl; rewrite ?last_app_cons, ?tcalls_of_app, ?tcalls_of_prints;
       simpl; split_and!; try reflexivity; try discriminate;
       try (eexists; reflexivity).
Qed.

(** When the first tab listing of [multi_tab] has no content item,
    [print(result.content[0].text)] raises [IndexError]: the session has
    made exactly the four calls up to the listing, has printed the empty
    result, never selects tab 2 nor opens the page, and is closed. *)
Theorem multi_tab_empty_listing_raises srv tl r0 r1 r2 :
  srv 0 = RespOk r0 -> srv 1 = RespOk r1 -> srv 2 = RespOk r2 ->
  srv 3 = RespOk (mkToolResult []) ->
  multi_tab srv (Ok tl) tinit
  = (TErr IndexError,
     mkTWorld (TOpen :: TListTools ::
               map TPrintTool (List.filter (fun t => String.eqb (tool_name t) "browser_tabs") tl) ++
               [TCall (TabsNew 333); TCall (TabsNew 666); TCall (TabsNew 999); TCall TabsList;
                TPrint newline; TPrintResult (mkToolResult []); TPrint newline; TClose]) 4).
Proof.
  intros H0 H1 H2 H3.
  unfold multi_tab, with_tab_client, list_tools, tbind, tcall, tprint, traise, tlog; simpl.
  rewrite print_tabs_tools_spec. simpl.
  rewrite H0; simpl. rewrite H1; simpl. rewrite H2; simpl. rewrite H3; simpl.
  rewrite <- !app_assoc. reflexivity.
Qed.

(* ------------------------------------------------------------------ *)
(** ** Properties of [single_client] *)

Lemma sc_run_app srv mode items w s1 s2 :
  sc_run srv mode items w (s1 ++ s2) =
  match sc_run srv mode items w s1 with Some w' => sc_run srv mode items w' s2 | None => None end.
Proof.
  revert w; induction s1 as [|who s1 IH]; intros w; simpl; [done|].
  destruct (sc_step srv mode items w who); [apply IH|done].
Qed.

(** With an empty item list, [single_client] still opens one session and
    makes no tool call in any run.  Once it has finished, the session has
    been opened and closed, and the call returned [[]] when the file runs
    as a script, or raised [NameError] at [asyncio.gather] when the module
    was imported. *)
Theorem single_client_empty srv mode sched w :
  sc_run srv mode [] single_client_init sched = Some w ->
  tcalls_of (map snd (c_log w)) = [] /\
  (forall o, c_phase w = SPEnd o ->
     c_log w = [(None, TOpen); (None, TClose)] /\
     o = if asyncio_bound mode then Ok [] else Err (NameError "asyncio")).
Proof.
  set (wend := mkCWorld (SPEnd (if asyncio_bound mode then Ok [] else Err (NameError "asyncio")))
                 [] [(None, TOpen); (None, TClose)] 0 None).
  assert (Hreach : forall w0 sched w,
    (w0 = single_client_init \/ w0 = mkCWorld (SPTabs 0) [] [(None, TOpen)] 0 None \/
     (asyncio_bound mode = true /\ w0 = mkCWorld SPGather [] [(None, TOpen)] 0 None) \/
     w0 = wend) ->
    sc_run srv mode [] w0 sched = Some w ->
    (w = single_client_init \/ w = mkCWorld (SPTabs 0) [] [(None, TOpen)] 0 None \/
     (asyncio_bound mode = true /\ w = mkCWorld SPGather [] [(None, TOpen)] 0 None) \/
     w = wend)).
  { intros w0 s; revert w0; induction s as [|who s IH]; intros w0 w1 H0 Hrun; simpl in Hrun.
    - injection Hrun as <-. exact H0.
    - destruct (sc_step srv mode [] w0 who) as [w2|] eqn:Hs; [|discriminate].
      apply (IH w2); [|exact Hrun]. subst wend.
      destruct mode; destruct H0 as [-> | [-> | [[Hm ->] | ->]]]; destruct who as [i|];
        simpl in Hs; try discriminate; injection Hs as <-;
        first [ left; reflexivity | right; left; reflexivity
              | right; right; left; split; reflexivity | right; right; right; reflexivity ]. }
  intros H. destruct (Hreach _ _ _ (or_introl eq_refl) H) as [-> | [-> | [[_ ->] | ->]]];
    (split; [reflexivity|intros o Ho; simpl in Ho; try discriminate]).
  injection Ho as <-. done.
Qed.

Lemma sc_run_app_some srv mode items w s1 s2 w1 :
  sc_run srv mode items w s1 = Some w1 -> sc_run srv mode items w (s1 ++ s2) = sc_run srv mode items w1 s2.
Proof. intros H. rewrite sc_run_app, H. reflexivity. Qed.

Lemma sc_run_cons srv mode items w who s w1 :
  sc_step srv mode items w who = Some w1 -> sc_run srv mode items w (who :: s) = sc_run srv mode items w1 s.
Proof. intros H. simpl. rewrite H. reflexivity. Qed.

Lemma sc_step_task srv mode items w i it k c r :
  c_phase w = SPGather -> items !! i = Some it -> c_tasks w !! i = Some (SRun k) ->
  sc_task_call i it k = Some c -> srv (c_next w) = RespOk r -> k < 3 ->
  sc_step srv mode items w (Some i)
  = Some (mkCWorld SPGather (<[i := SRun (S k)]> (c_tasks w)) (c_log w ++ [(Some i, TCall c)])
            (S (c_next w)) (c_exc w)).
Proof.
  intros Hph Hit Hts Hc Hr Hk. unfold sc_step. rewrite Hph, Hit, Hts.
  unfold sc_task_step. rewrite Hc, Hr.
  replace (Nat.eqb k 3) with false by (symmetry; apply Nat.eqb_neq; lia).
  destruct (c_exc w); reflexivity.
Qed.

Lemma sc_tabs_loop srv mode items d : forall w j,
  (forall k, exists r, srv k = RespOk r) ->
  c_phase w = SPTabs j -> j + d = length items ->
  sc_run srv mode items w (replicate d None)
  = Some (mkCWorld (SPTabs (length items)) (c_tasks w)
            (c_log w ++ map (fun m => (None, TCall (TabsNew m))) (seq j d))
            (c_next w + d) (c_exc w)).
Proof.
  induction d as [|d IH]; intros w j Hsrv Hph Hd; simpl.
  - destruct w as [ph ts lg nx ex]; simpl in *. subst ph.
    rewrite app_nil_r, Nat.add_0_r. replace j with (length items) by lia. reflexivity.
  - unfold sc_step. rewrite Hph. replace (Nat.ltb j (length items)) with true
      by (symmetry; apply Nat.ltb_lt; lia).
    destruct (Hsrv (c_next w)) as [r Hr]. rewrite Hr. simpl.
    erewrite IH; [|exact Hsrv|reflexivity|lia]. simpl.
    rewrite <- app_assoc. do 2 f_equal. lia.
Qed.

(** The tasks of [single_client] share one browser and its selected tab:
    for any two or more items and a server that answers every call,
    there is an interleaving in which task 0 navigates right after task 1
    has selected tab 1, so the navigation of item 0 is issued while the
    last tab selected in the session is tab 1. *)
Theorem single_client_shared_tab_race srv it0 it1 rest :
  (forall k, exists r, srv k = RespOk r) ->
  exists sched w pre,
    sc_run srv RunAsMain (it0 :: it1 :: rest) single_client_init sched = Some w /\
    c_log w = pre ++ [(Some 0, TCall (TabsSelect 0)); (Some 1, TCall (TabsSelect 1));
                      (Some 0, TCall (PageTool (BrowserNavigate (url it0))))].
Proof.
  intros Hsrv. set (items := it0 :: it1 :: rest). set (n := length items).
  set (w1 := mkCWorld (SPTabs 0) [] [(None, TOpen)] 0 None).
  assert (H1 : sc_run srv RunAsMain items single_client_init [None] = Some w1) by reflexivity.
  pose proof (sc_tabs_loop srv RunAsMain items n w1 0 Hsrv eq_refl eq_refl) as H2.
  set (wg := mkCWorld SPGather (replicate n (SRun 0)) (tabs_prefix n) n None).
  assert (Hg : sc_step srv RunAsMain items
                 (mkCWorld (SPTabs n) (c_tasks w1)
                    (c_log w1 ++ map (fun m => (None, TCall (TabsNew m))) (seq 0 n))
                    (c_next w1 + n) (c_exc w1)) None = Some wg).
  { unfold sc_step. cbn [c_phase c_tasks c_log c_next c_exc]. rewrite Nat.ltb_irrefl. reflexivity. }
  destruct (Hsrv n) as [ra Ha]. destruct (Hsrv (S n)) as [rb Hb].
  destruct (Hsrv (S (S n))) as [rc Hc].
  pose proof (sc_step_task srv RunAsMain items wg 0 it0 0 _ ra eq_refl eq_refl eq_refl eq_refl Ha
                ltac:(lia)) as S1.
  match type of S1 with _ = Some ?x => set (wa := x) in S1 end.
  pose proof (sc_step_task srv RunAsMain items wa 1 it1 0 _ rb eq_refl eq_refl eq_refl eq_refl Hb
                ltac:(lia)) as S2.
  match type of S2 with _ = Some ?x => set (wb := x) in S2 end.
  pose proof (sc_step_task srv RunAsMain items wb 0 it0 1 _ rc eq_refl eq_refl eq_refl eq_refl Hc
                ltac:(lia)) as S3.
  exists ([None] ++ replicate n None ++ [None; Some 0; Some 1; Some 0]).
  rewrite (sc_run_app_some _ _ _ _ _ _ _ H1), (sc_run_app_some _ _ _ _ _ _ _ H2).
  rewrite (sc_run_cons _ _ _ _ _ _ _ Hg), (sc_run_cons _ _ _ _ _ _ _ S1),
    (sc_run_cons _ _ _ _ _ _ _ S2), (sc_run_cons _ _ _ _ _ _ _ S3).
  eexists; exists (tabs_prefix n); split; [reflexivity|].
  cbn [c_log]. subst wa wb wg. cbn [c_log]. rewrite <- !app_assoc. reflexivity.
Qed.

Lemma multi_tab_empty_listing_raises_witness :
  multi_tab (fun _ => RespOk (mkToolResult [])) (Ok [mkTool "browser_tabs" "d"; mkTool "browser_click" "d"]) tinit
  = (TErr IndexError,
     mkTWorld [TOpen; TListTools; TPrintTool (mkTool "browser_tabs" "d");
               TCall (TabsNew 333); TCall (TabsNew 666); TCall (TabsNew 999); TCall TabsList;
               TPrint newline; TPrintResult (mkToolResult []); TPrint newline; TClose] 4).
Proof.
  apply (multi_tab_empty_listing_raises (fun _ => RespOk (mkToolResult []))
           [mkTool "browser_tabs" "d"; mkTool "browser_click" "d"]
           (mkToolResult []) (mkToolResult []) (mkToolResult [])); reflexivity.
Defined.

Lemma single_client_empty_witness :
  let w := mkCWorld (SPEnd (Ok [])) [] [(None, TOpen); (None, TClose)] 0 None in
  let w' := mkCWorld (SPEnd (Err (NameError "asyncio"))) [] [(None, TOpen); (None, TClose)] 0 None in
  sc_run (fun _ => RespOk (mkToolResult [])) RunAsMain [] single_client_init [None; None; None] = Some w /\
  (tcalls_of (map snd (c_log w)) = [] /\
   (forall o, c_phase w = SPEnd o ->
      c_log w = [(None, TOpen); (None, TClose)] /\
      o = if asyncio_bound RunAsMain then Ok [] else Err (NameError "asyncio"))) /\
  sc_run (fun _ => RespOk (mkToolResult [])) Imported [] single_client_init [None; None] = Some w' /\
  (tcalls_of (map snd (c_log w')) = [] /\
   (forall o, c_phase w' = SPEnd o ->
      c_log w' = [(None, TOpen); (None, TClose)] /\
      o = if asyncio_bound Imported then Ok [] else Err (NameError "asyncio"))).
Proof.
  intros w w'. split; [reflexivity|]. split.
  { exact (single_client_empty (fun _ => RespOk (mkToolResult [])) RunAsMain [None; None; None] w eq_refl). }
  split; [reflexivity|].
  exact (single_client_empty (fun _ => RespOk (mkToolResult [])) Imported [None; None] w' eq_refl).
Defined.

Lemma single_client_shared_tab_race_witness :
  exists sched w pre,
    sc_run (fun _ => RespOk (mkToolResult [])) RunAsMain demo_items single_client_init sched = Some w /\
    c_log w = pre ++ [(Some 0, TCall (TabsSelect 0)); (Some 1, TCall (TabsSelect 1));
                      (Some 0, TCall (PageTool (BrowserNavigate (url (mkPageItem "A" "http://x")))))].
Proof.
  exact (single_client_shared_tab_race (fun _ => RespOk (mkToolResult []))
           (mkPageItem "A" "http://x") (mkPageItem "B" "http://y") []
           (fun k => ex_intro _ (mkToolResult []) eq_refl)).
Defined.

Lemma collect_sresults_spec l rs :
  collect_sresults l = Some rs ->
  length rs = length l /\ forall i r, rs !! i = Some r -> l !! i = Some (SDone (Ok r)).
Proof.
  revert rs. induction l as [|t l IH]; intros rs H; simpl in H.
  - injection H as <-. split; [done|]. intros i r Hr. done.
  - destruct t as [k|[r0|e]]; try discriminate.
    destruct (collect_sresults l) as [rs'|] eqn:E; [|discriminate].
    injection H as <-. destruct (IH rs' eq_refl) as [Hl Hi]. split; [simpl; lia|].
    intros [|i] r Hr; simpl in Hr |- *; [congruence|]. apply Hi, Hr.
Qed.

Lemma sc_step_inv srv mode items w who w' :
  SInv items w -> sc_step srv mode items w who = Some w' -> SInv items w'.
Proof.
  unfold SInv, sc_step.
  destruct who as [i|]; destruct (c_phase w) as [|j| |o] eqn:Ep; intros Hinv Hst;
    try discriminate.
  - destruct (items !! i) as [it|] eqn:Ei; [|discriminate].
    destruct (c_tasks w !! i) as [[k|o]|] eqn:Et; try discriminate.
    unfold sc_task_step in Hst.
    destruct (sc_task_call i it k) as [c|]; [|discriminate].
    injection Hst as <-. simpl. destruct Hinv as [Hl Ha].
    rewrite length_insert. split; [done|].
    intros i' it' r Hi' Ht'. destruct (decide (i' = i)) as [->|Hne].
    + rewrite list_lookup_insert_eq in Ht' by (eapply lookup_lt_Some; eauto).
      rewrite Ei in Hi'. injection Hi' as <-. injection Ht' as Ht'.
      destruct (srv (c_next w)) as [r0|e]; [|discriminate].
      destruct (Nat.eqb k 3); [|discriminate].
      destruct (_extract_text r0); [|discriminate].
      injection Ht' as <-. done.
    + rewrite list_lookup_insert_ne in Ht' by done. eauto.
  - injection Hst as <-. done.
  - destruct (Nat.ltb j (length items)).
    + destruct (srv (c_next w)); injection Hst as <-; done.
    + destruct (asyncio_bound mode); injection Hst as <-; simpl; [|done].
      rewrite length_replicate. split; [done|].
      intros i it r _ Ht. apply lookup_replicate_eq in Ht. discriminate.
  - destruct Hinv as [Hl Ha]. destruct (c_exc w).
    + injection Hst as <-. done.
    + destruct (collect_sresults (c_tasks w)) as [rs|] eqn:Ec; [|discriminate].
      injection Hst as <-. simpl.
      destruct (collect_sresults_spec _ _ Ec) as [Hl' Hi].
      split; [lia|]. intros i it r Hit Hr. apply (Ha i); auto.
Qed.

Lemma sc_run_inv srv mode items w sched w' :
  SInv items w -> sc_run srv mode items w sched = Some w' -> SInv items w'.
Proof.
  revert w. induction sched as [|who sched IH]; intros w Hinv Hrun; simpl in Hrun.
  - congruence.
  - destruct (sc_step srv mode items w who) as [w1|] eqn:E; [|discriminate].
    eapply IH; [eapply sc_step_inv|]; eauto.
Qed.

(** Whatever order the scheduler runs the tasks in, a list that
    [single_client] returns has one result per item, and the result at
    index [i] carries the name and url of [items[i]]: [asyncio.gather]
    keeps the order of the tasks, which were created in item order. *)
Theorem single_client_results_aligned srv mode items sched w rs :
  sc_run srv mode items single_client_init sched = Some w ->
  c_phase w = SPEnd (Ok rs) ->
  length rs = length items /\
  forall i it r, items !! i = Some it -> rs !! i = Some r -> r_name r = name it /\ r_url r = url it.
Proof.
  intros Hrun Hph. pose proof (sc_run_inv srv mode items single_client_init sched w I Hrun) as Hinv.
  unfold SInv in Hinv. rewrite Hph in Hinv. exact Hinv.
Qed.

Lemma single_client_results_aligned_witness :
  match sc_run (fun _ => RespOk (mkToolResult [TextContent "page"])) RunAsMain demo_items single_client_init
          [None; None; None; None; Some 1; Some 0; Some 1; Some 0; Some 1; Some 0; Some 1; Some 0; None] with
  | Some w =>
      c_phase w = SPEnd (Ok [mkPageItemResult "A" "http://x" "page"; mkPageItemResult "B" "http://y" "page"]) /\
      length [mkPageItemResult "A" "http://x" "page"; mkPageItemResult "B" "http://y" "page"] = length demo_items
  | None => False
  end.
Proof.
  assert (H : sc_run (fun _ => RespOk (mkToolResult [TextContent "page"])) RunAsMain demo_items single_client_init
          [None; None; None; None; Some 1; Some 0; Some 1; Some 0; Some 1; Some 0; Some 1; Some 0; None]
          = Some (mkCWorld (SPEnd (Ok [mkPageItemResult "A" "http://x" "page"; mkPageItemResult "B" "http://y" "page"]))
                   [SDone (Ok (mkPageItemResult "A" "http://x" "page")); SDone (Ok (mkPageItemResult "B" "http://y" "page"))]
                   (tabs_prefix 2 ++ [(Some 1, TCall (TabsSelect 1)); (Some 0, TCall (TabsSelect 0));
                      (Some 1, TCall (PageTool (BrowserNavigate "http://y"))); (Some 0, TCall (PageTool (BrowserNavigate "http://x")));
                      (Some 1, TCall (PageTool (BrowserWaitFor 5))); (Some 0, TCall (PageTool (BrowserWaitFor 5)));
                      (Some 1, TCall (PageTool BrowserSnapshot)); (Some 0, TCall (PageTool BrowserSnapshot));
                      (None, TClose)]) 10 None)) by reflexivity.
  rewrite H. split; [reflexivity|].
  exact (proj1 (single_client_results_aligned _ _ _ _ _ _ H eq_refl)).
Defined.
